(** * House search assistant: condition predicates, listing filter,
      amenity classification and scoring

    A shallow embedding of [app.py] ([haversine], [evaluate_sql_condition],
    [filter_houses]) and of [rate_house.py] (the element loop of
    [find_nearby_amenities_with_counts] and [check_living_function_updated]),
    followed by the properties established about them.

    Conventions of the embedding.
    - A Python [str] is a Rocq [string].  For the condition mini-language a
      character is a code point below 256 and the three character classes
      of the regular expression are written out as CPython's [re] module
      defines them for [str] patterns on that range.  The classifier only
      tests substring containment and emptiness, which are the same on a
      text and on its UTF-8 encoding, so its CJK markers are the literals
      of the source.
    - A JSON number is a finite rational ([Q]); Python compares an [int]
      with a [float] by exact value, and so does the embedding.  [float()]
      is the correctly rounded conversion to binary64.
    - [haversine] is computed over the real numbers: the transcendental
      functions of [math] are taken exactly. *)

From Stdlib Require Import Ascii ZArith QArith Reals Qreals Lra Lia.
From stdpp Require Import base decidable option list strings gmap pretty.

(* ================================================================== *)
(** * Python values *)

Module Py.

(** What [json.load] can produce (numbers are finite). *)
#[warnings="-register-all"]
Inductive pyval : Type :=
| PNone
| PBool (b : bool)
| PNum (q : Q)
| PStr (s : string)
| PList (l : list pyval)
| PDict (d : list (string * pyval)).

(** Truth value testing: [None], [False], zero and empty containers
    are false. *)
Definition truthy (v : pyval) : bool :=
  match v with
  | PNone => false
  | PBool b => b
  | PNum q => negb (Qeq_bool q 0)
  | PStr s => negb (String.eqb s "")
  | PList l => match l with [] => false | _ :: _ => true end
  | PDict d => match d with [] => false | _ :: _ => true end
  end.

Definition isinstance_str (v : pyval) : bool :=
  match v with PStr _ => true | _ => false end.

(** Exceptions that the modelled code can raise. *)
Inductive exn : Type := ValueError | TypeError.

(** A computation either raises or returns. *)
Definition result (A : Type) : Type := exn + A.
Definition ret {A} (a : A) : result A := inr a.
Definition raise {A} (e : exn) : result A := inl e.
Definition bind {A B} (m : result A) (k : A → result B) : result B :=
  match m with inl e => inl e | inr a => k a end.

(** [try: body  except: return d]. *)
Definition try_except {A} (body : result A) (d : A) : A :=
  match body with inl _ => d | inr a => a end.

(** [needle in hay] on strings. *)
Fixpoint contains (needle hay : string) : bool :=
  String.prefix needle hay
  || match hay with
     | EmptyString => false
     | String _ t => contains needle t
     end.

(** [s.replace(old, new)]: leftmost, non-overlapping occurrences.
    [skip] counts the characters of a matched occurrence still to be
    dropped. *)
Fixpoint replace_go (old new : string) (skip : nat) (s : string) : string :=
  match s with
  | EmptyString =>
      match old with EmptyString => new | String _ _ => EmptyString end
  | String c t =>
      match skip with
      | S k => replace_go old new k t
      | O =>
          if String.prefix old s then
            match old with
            | EmptyString => new +:+ String c (replace_go old new 0 t)
            | String _ old' => new +:+ replace_go old new (String.length old') t
            end
          else String c (replace_go old new 0 t)
      end
  end.

Definition replace (s old new : string) : string := replace_go old new 0 s.

End Py.

Notation "'let*' x ':=' m 'in' k" := (Py.bind m (fun x => k))
(at level 10, x name, m at level 100, k at level 200).

(* ================================================================== *)
(** * ConditionExpression: [evaluate_sql_condition] *)

Module Condition.
Import Py.

Definition code (c : ascii) : N := N_of_ascii c.

Definition between (lo hi n : N) : bool := ((lo <=? n) && (n <=? hi))%N.

(** [\d]: decimal digits. *)
Definition is_digit (c : ascii) : bool := between 48 57 (code c).

(** [\w]: alphanumeric code points and the underscore. *)
Definition is_word (c : ascii) : bool :=
  let n := code c in
  between 48 57 n || between 65 90 n || (n =? 95)%N || between 97 122 n
  || (n =? 170)%N || between 178 179 n || (n =? 181)%N || between 185 186 n
  || between 188 190 n || between 192 214 n || between 216 246 n
  || between 248 255 n.

(** [\s]: whitespace. *)
Definition is_space (c : ascii) : bool :=
  let n := code c in
  between 9 13 n || between 28 32 n || (n =? 133)%N || (n =? 160)%N.

(** [[<>=!]] *)
Definition is_opchar (c : ascii) : bool :=
  let n := code c in
  (n =? 60)%N || (n =? 62)%N || (n =? 61)%N || (n =? 33)%N.

(** [[\d\.]] *)
Definition is_numchar (c : ascii) : bool := is_digit c || (code c =? 46)%N.

Definition newline : ascii := ascii_of_N 10.

(** The longest prefix of [s] whose characters satisfy [p], and the rest. *)
Fixpoint span (p : ascii → bool) (s : string) : string * string :=
  match s with
  | EmptyString => (EmptyString, EmptyString)
  | String c t =>
      if p c then let '(a, b) := span p t in (String c a, b)
      else (EmptyString, s)
  end.

Definition is_empty (s : string) : bool :=
  match s with EmptyString => true | String _ _ => false end.

(** [$] without [re.MULTILINE]: the end of the string, or just before a
    newline that ends the string. *)
Definition at_end (s : string) : bool :=
  match s with
  | EmptyString => true
  | String c EmptyString => (code c =? 10)%N
  | String _ (String _ _) => false
  end.

(** [re.match(r'^\w+\s*([<>=!]+)\s*([\d\.]+)$', s)], returning groups 1
    and 2.  Consecutive pieces of the pattern draw on disjoint character
    classes, so the greedy match is the only candidate and no
    backtracking can succeed where it fails (see [re_match_iff_shape]). *)
Definition re_match (s : string) : option (string * string) :=
  let '(ident, s1) := span is_word s in
  if is_empty ident then None else
  let '(_, s2) := span is_space s1 in
  let '(operator, s3) := span is_opchar s2 in
  if is_empty operator then None else
  let '(_, s4) := span is_space s3 in
  let '(number, s5) := span is_numchar s4 in
  if is_empty number then None else
  if at_end s5 then Some (operator, number) else None.

(** ** [float()] on the text of group 2 *)

(** A non-negative binary64 value: finite, or [inf]. *)
Inductive pyfloat : Type := Fin (q : Q) | Inf.

(** Nearest integer to [n / d], ties to even ([0 <= n], [0 < d]). *)
Definition round_half_even (n d : Z) : Z :=
  let q := (n / d)%Z in
  match (2 * (n mod d) ?= d)%Z with
  | Lt => q
  | Gt => (q + 1)%Z
  | Eq => if Z.even q then q else (q + 1)%Z
  end.

(** [floor (log2 (n / d))] for [0 < n], [0 < d]. *)
Definition floor_log2_ratio (n d : Z) : Z :=
  let k := (Z.log2 n - Z.log2 d)%Z in
  let above := if (0 <=? k)%Z then (d * 2 ^ k <=? n)%Z
               else (d <=? n * 2 ^ (- k))%Z in
  if above then k else (k - 1)%Z.

(** Round [n / d] to binary64 (53-bit significand, least exponent
    -1074, overflow to [inf]). *)
Definition binary64_of_ratio (n d : Z) : pyfloat :=
  if (n =? 0)%Z then Fin 0 else
  let e := Z.max (floor_log2_ratio n d - 52) (-1074) in
  let m := if (0 <=? e)%Z then round_half_even n (d * 2 ^ e)
           else round_half_even (n * 2 ^ (- e)) d in
  if (0 <=? e)%Z then
    if (2 ^ 1024 <=? m * 2 ^ e)%Z then Inf else Fin (inject_Z (m * 2 ^ e))
  else Fin (Qmake m (Z.to_pos (2 ^ (- e)))).

Definition digit_value (c : ascii) : Z := (Z.of_N (code c) - 48)%Z.

(** Digits read as a decimal numeral, most significant first. *)
Fixpoint decimal_value (acc : Z) (s : string) : Z :=
  match s with
  | EmptyString => acc
  | String c t => decimal_value (10 * acc + digit_value c)%Z t
  end.

Fixpoint all_chars (p : ascii → bool) (s : string) : bool :=
  match s with
  | EmptyString => true
  | String c t => p c && all_chars p t
  end.

(** [float(text)] for a text over digits and dots: digits with at most
    one dot and at least one digit; anything else is a [ValueError]. *)
Definition py_float (text : string) : result pyfloat :=
  let '(int_part, rest) := span is_digit text in
  let frac_part :=
    match rest with
    | EmptyString => Some EmptyString
    | String c t =>
        if (code c =? 46)%N && all_chars is_digit t then Some t else None
    end in
  match frac_part with
  | None => raise ValueError
  | Some frac =>
      if is_empty int_part && is_empty frac then raise ValueError
      else ret (binary64_of_ratio (decimal_value 0 (int_part +:+ frac))
                                  (10 ^ Z.of_nat (String.length frac)))
  end.

(** The finite value of [float(text)] equals [q]. *)
Definition float_is (text : string) (q : Q) : bool :=
  match py_float text with
  | inr (Fin r) => Qeq_bool r q
  | _ => false
  end.

(** ** Comparisons of a value with a float *)

(** The number a value stands for in a comparison ([bool] is an [int]). *)
Definition as_number (v : pyval) : option Q :=
  match v with
  | PNum q => Some q
  | PBool b => Some (if b then 1 else 0)%Q
  | _ => None
  end.

Definition Qlt_bool (x y : Q) : bool := negb (Qle_bool y x).

(** [value <= t] and the three other orderings raise [TypeError] on a
    value that is not a number. *)
Definition py_le (v : pyval) (t : pyfloat) : result bool :=
  match as_number v, t with
  | Some q, Fin r => ret (Qle_bool q r)
  | Some _, Inf => ret true
  | None, _ => raise TypeError
  end.

Definition py_ge (v : pyval) (t : pyfloat) : result bool :=
  match as_number v, t with
  | Some q, Fin r => ret (Qle_bool r q)
  | Some _, Inf => ret false
  | None, _ => raise TypeError
  end.

Definition py_lt (v : pyval) (t : pyfloat) : result bool :=
  match as_number v, t with
  | Some q, Fin r => ret (Qlt_bool q r)
  | Some _, Inf => ret true
  | None, _ => raise TypeError
  end.

Definition py_gt (v : pyval) (t : pyfloat) : result bool :=
  match as_number v, t with
  | Some q, Fin r => ret (Qlt_bool r q)
  | Some _, Inf => ret false
  | None, _ => raise TypeError
  end.

(** [value == t] never raises: values of other types are unequal. *)
Definition py_eq (v : pyval) (t : pyfloat) : result bool :=
  match as_number v, t with
  | Some q, Fin r => ret (Qeq_bool q r)
  | _, _ => ret false
  end.

Definition py_ne (v : pyval) (t : pyfloat) : result bool :=
  let* b := py_eq v t in ret (negb b).

(** ** The function *)

(** The argument handed to [re.match]. *)
Definition normalise (condition_str : string) : string :=
  replace (replace (replace condition_str "price" "value") "age" "value")
          "size" "value".

(** The body of the [try] block. *)
Definition evaluate_body (value : pyval) (condition_str : string)
  : result bool :=
  match re_match (normalise condition_str) with
  | None => ret true
  | Some (operator, number) =>
      let* condition_value := py_float number in
      if String.eqb operator "<=" then py_le value condition_value
      else if String.eqb operator ">=" then py_ge value condition_value
      else if String.eqb operator "<" then py_lt value condition_value
      else if String.eqb operator ">" then py_gt value condition_value
      else if String.eqb operator "=" then py_eq value condition_value
      else if String.eqb operator "!=" then py_ne value condition_value
      else ret true
  end.

Definition evaluate_sql_condition (value condition_str : pyval) : bool :=
  if negb (truthy condition_str) || negb (isinstance_str condition_str)
  then true
  else
    match condition_str with
    | PStr s => try_except (evaluate_body value s) true
    | _ => true
    end.

(** ** The pattern, declaratively *)

(** [s] is an identifier, an operator [op] and a number text [num],
    with optional whitespace around the operator:
    [<identifier><whitespace>*<operator><whitespace>*<number>]. *)
Definition pattern (s op num : string) : Prop :=
  ∃ ident sp1 sp2,
    s = ident +:+ sp1 +:+ op +:+ sp2 +:+ num
    ∧ ident ≠ "" ∧ all_chars is_word ident = true
    ∧ all_chars is_space sp1 = true
    ∧ op ≠ "" ∧ all_chars is_opchar op = true
    ∧ all_chars is_space sp2 = true
    ∧ num ≠ "" ∧ all_chars is_numchar num = true.

Definition LF : string := String newline "".

(** What [re.match] accepts: the pattern, possibly followed by one
    final line feed. *)
Definition accepted (s op num : string) : Prop :=
  pattern s op num ∨ ∃ s0, s = s0 +:+ LF ∧ pattern s0 op num.

(** The operators the function compares with. *)
Inductive comparison_op : Type := OpLe | OpGe | OpLt | OpGt | OpEq | OpNe.

Definition op_text (o : comparison_op) : string :=
  match o with
  | OpLe => "<=" | OpGe => ">=" | OpLt => "<" | OpGt => ">" | OpEq => "=" | OpNe => "!="
  end.

(** The comparison [q o t] of a number with a float, over the order
    of the rationals extended with [inf]. *)
Definition holds (o : comparison_op) (q : Q) (t : pyfloat) : Prop :=
  match t with
  | Fin r =>
      match o with
      | OpLe => (q <= r)%Q | OpGe => (r <= q)%Q
      | OpLt => (q < r)%Q | OpGt => (r < q)%Q
      | OpEq => (q == r)%Q | OpNe => ¬ (q == r)%Q
      end
  | Inf =>
      match o with
      | OpLe | OpLt | OpNe => True
      | OpGe | OpGt | OpEq => False
      end
  end.

Fixpoint last_char (s : string) : option ascii :=
  match s with
  | EmptyString => None
  | String c EmptyString => Some c
  | String _ t => last_char t
  end.

Definition is_lower (c : ascii) : bool := between 97 122 (code c).
Definition not_lower (c : ascii) : bool := negb (is_lower c).

(** The first character of [s], if any, fails [p]. *)
Definition head_fails (p : ascii → bool) (s : string) : Prop :=
  match s with
  | EmptyString => True
  | String c _ => p c = false
  end.

(** What follows the identifier: [\s*([<>=!]+)\s*([\d\.]+)] and the
    end-of-string piece [tail]. *)
Definition after_ident (rest op num tail : string) : Prop :=
  ∃ sp1 sp2,
    rest = sp1 +:+ op +:+ sp2 +:+ num +:+ tail
    ∧ all_chars is_space sp1 = true
    ∧ op ≠ "" ∧ all_chars is_opchar op = true
    ∧ all_chars is_space sp2 = true
    ∧ num ≠ "" ∧ all_chars is_numchar num = true.

(** The scanner run on what follows the identifier. *)
Definition scan_rest (s1 : string) : option (string * string) :=
  let '(_, s2) := span is_space s1 in
  let '(operator, s3) := span is_opchar s2 in
  if is_empty operator then None else
  let '(_, s4) := span is_space s3 in
  let '(number, s5) := span is_numchar s4 in
  if is_empty number then None else
  if at_end s5 then Some (operator, number) else None.

(** With the end-of-string piece made explicit. *)
Definition accepted_with (s op num tail : string) : Prop :=
  ∃ ident rest,
    s = ident +:+ rest ∧ ident ≠ "" ∧ all_chars is_word ident = true
    ∧ after_ident rest op num tail.

End Condition.

(* ================================================================== *)
(** * GeoDistance: [haversine] *)

Module Geo.
Local Open Scope R_scope.

Definition radians (x : R) : R := x * (PI / 180).

(** [math.atan2 y x]: the angle of the point [(x, y)], in [(-PI, PI]]. *)
Definition atan2 (y x : R) : R :=
  if Rlt_dec 0 x then atan (y / x)
  else if Rlt_dec x 0 then
    if Rle_dec 0 y then atan (y / x) + PI else atan (y / x) - PI
  else if Rlt_dec 0 y then PI / 2
  else if Rlt_dec y 0 then - (PI / 2)
  else 0.

(** Earth radius in kilometres (the local [R] of the source). *)
Definition R_earth : R := 6371.

Definition haversine (lat1 lon1 lat2 lon2 : R) : R :=
  let lat1_rad := radians lat1 in
  let lon1_rad := radians lon1 in
  let lat2_rad := radians lat2 in
  let lon2_rad := radians lon2 in
  let dlon := lon2_rad - lon1_rad in
  let dlat := lat2_rad - lat1_rad in
  let a := sin (dlat / 2) ^ 2
           + cos lat1_rad * cos lat2_rad * sin (dlon / 2) ^ 2 in
  let c := 2 * atan2 (sqrt a) (sqrt (1 - a)) in
  R_earth * c.

Definition Rle_bool (x y : R) : bool := if Rle_dec x y then true else false.

(** The haversine term [a] of two points. *)
Definition hav_a (lat1 lon1 lat2 lon2 : R) : R :=
  sin ((radians lat2 - radians lat1) / 2) ^ 2
  + cos (radians lat1) * cos (radians lat2)
    * sin ((radians lon2 - radians lon1) / 2) ^ 2.

End Geo.

(* ================================================================== *)
(** * ListingFilterEngine: [filter_houses] *)

Module Listing.
(** One entry of [house_data]: its name and the keys that
    [filter_houses] reads; [label] is [None] when the key is absent. *)
Record t : Type := mk {
  name : string;
  latitude : Q;
  longitude : Q;
  price : Q;
  age : Q;
  size : Q;
  label : option (list string)
}.
End Listing.

Module Criteria.
(** The dictionary returned by the translator.  A field is [None]
    ([PNone] for the condition fields) when its key is missing or its
    value is [null]; the two are the same to [dict.get]. *)
Record t : Type := mk {
  location : option (Q * Q);
  distance : option Q;
  age : Py.pyval;
  size : Py.pyval;
  price : Py.pyval;
  labels_to_exclude : option (list string);
  labels_to_include : option (list string)
}.

(** [criteria.get(key)] as a Python value, for truth testing. *)
Definition get_location (c : t) : Py.pyval :=
  match location c with
  | Some (lat, lon) => Py.PList [Py.PNum lat; Py.PNum lon]
  | None => Py.PNone
  end.

Definition get_distance (c : t) : Py.pyval :=
  match distance c with Some d => Py.PNum d | None => Py.PNone end.

Definition get_labels (l : option (list string)) : Py.pyval :=
  match l with Some xs => Py.PList (Py.PStr <$> xs) | None => Py.PNone end.

(** No key set. *)
Definition empty : t := mk None None Py.PNone Py.PNone Py.PNone None None.
End Criteria.

Module Filter.
Import Py.

(** [set(xs)] *)
Definition set_of (xs : list string) : gset string := list_to_set xs.

(** [h.get('label', [])] *)
Definition label_list (h : Listing.t) : list string :=
  default [] (Listing.label h).

(** [set(h.get('label', []))] *)
Definition label_set (h : Listing.t) : gset string :=
  set_of (label_list h).

(** 1. location and distance *)
Definition stage_location (criteria : Criteria.t) (filtered : list Listing.t)
  : list Listing.t :=
  if truthy (Criteria.get_location criteria)
     && truthy (Criteria.get_distance criteria)
  then
    match Criteria.location criteria, Criteria.distance criteria with
    | Some (center_lat, center_lon), Some max_dist =>
        List.filter
          (fun h => Geo.Rle_bool
                      (Geo.haversine (Q2R center_lat) (Q2R center_lon)
                                     (Q2R (Listing.latitude h))
                                     (Q2R (Listing.longitude h)))
                      (Q2R max_dist))
          filtered
    | _, _ => filtered
    end
  else filtered.

(** 2. price, age, size: one stage per condition string *)
Definition stage_condition (condition : pyval) (field : Listing.t → Q)
    (filtered : list Listing.t) : list Listing.t :=
  if truthy condition
  then List.filter
         (fun h => Condition.evaluate_sql_condition (PNum (field h)) condition)
         filtered
  else filtered.

(** 3. labels *)
Definition stage_exclude (criteria : Criteria.t) (filtered : list Listing.t)
  : list Listing.t :=
  if truthy (Criteria.get_labels (Criteria.labels_to_exclude criteria))
  then
    let exclude_labels :=
      set_of (default [] (Criteria.labels_to_exclude criteria)) in
    List.filter
      (fun h => negb (bool_decide (exclude_labels ∩ label_set h ≠ ∅)))
      filtered
  else filtered.

Definition stage_include (criteria : Criteria.t) (filtered : list Listing.t)
  : list Listing.t :=
  if truthy (Criteria.get_labels (Criteria.labels_to_include criteria))
  then
    let include_labels :=
      set_of (default [] (Criteria.labels_to_include criteria)) in
    List.filter (fun h => bool_decide (include_labels ⊆ label_set h)) filtered
  else filtered.

(** [house_data] is the module-level list of the source. *)
Definition filter_houses (house_data : list Listing.t) (criteria : Criteria.t)
  : list Listing.t :=
  match house_data with
  | [] => []
  | _ :: _ =>
      let filtered := house_data in
      let filtered := stage_location criteria filtered in
      let filtered :=
        stage_condition (Criteria.price criteria) Listing.price filtered in
      let filtered :=
        stage_condition (Criteria.age criteria) Listing.age filtered in
      let filtered :=
        stage_condition (Criteria.size criteria) Listing.size filtered in
      let filtered := stage_exclude criteria filtered in
      let filtered := stage_include criteria filtered in
      take 10 filtered
  end.

(** ** What a retained listing satisfies *)

(** The listing lies within [max_dist] kilometres of the centre. *)
Definition within (center_lat center_lon max_dist : Q) (h : Listing.t)
  : Prop :=
  (Geo.haversine (Q2R center_lat) (Q2R center_lon)
                 (Q2R (Listing.latitude h)) (Q2R (Listing.longitude h))
   <= Q2R max_dist)%R.

#[global] Instance within_dec center_lat center_lon max_dist h :
  Decision (within center_lat center_lon max_dist h) := Rle_dec _ _.

(** No label of the listing is excluded. *)
Definition avoids (exclude : list string) (h : Listing.t) : Prop :=
  Forall (fun x => x ∉ label_list h) exclude.

(** Every required label is on the listing. *)
Definition carries (include : list string) (h : Listing.t) : Prop :=
  Forall (fun x => x ∈ label_list h) include.

#[global] Instance avoids_dec exclude h : Decision (avoids exclude h).
Proof. unfold avoids. apply _. Defined.

#[global] Instance carries_dec include h : Decision (carries include h).
Proof. unfold carries. apply _. Defined.

(** The distance constraint as the function applies it: in force when
    a centre and a radius other than zero are given. *)
Definition location_ok (criteria : Criteria.t) (h : Listing.t) : Prop :=
  match Criteria.location criteria, Criteria.distance criteria with
  | Some (center_lat, center_lon), Some max_dist =>
      if Qeq_bool max_dist 0 then True
      else within center_lat center_lon max_dist h
  | _, _ => True
  end.

Definition condition_ok (condition : pyval) (value : Q) : Prop :=
  Condition.evaluate_sql_condition (PNum value) condition = true.

Definition exclude_ok (criteria : Criteria.t) (h : Listing.t) : Prop :=
  match Criteria.labels_to_exclude criteria with
  | Some exclude => avoids exclude h
  | None => True
  end.

Definition include_ok (criteria : Criteria.t) (h : Listing.t) : Prop :=
  match Criteria.labels_to_include criteria with
  | Some include => carries include h
  | None => True
  end.

(** The listing meets every constraint of the criteria. *)
Definition meets (criteria : Criteria.t) (h : Listing.t) : Prop :=
  location_ok criteria h
  ∧ condition_ok (Criteria.price criteria) (Listing.price h)
  ∧ condition_ok (Criteria.age criteria) (Listing.age h)
  ∧ condition_ok (Criteria.size criteria) (Listing.size h)
  ∧ exclude_ok criteria h
  ∧ include_ok criteria h.

#[global] Instance location_ok_dec criteria h :
  Decision (location_ok criteria h).
Proof.
  unfold location_ok.
  destruct (Criteria.location criteria) as [[? ?]|],
           (Criteria.distance criteria) as [d|]; try apply _.
  destruct (Qeq_bool d 0); apply _.
Defined.

#[global] Instance exclude_ok_dec criteria h :
  Decision (exclude_ok criteria h).
Proof.
  unfold exclude_ok. destruct (Criteria.labels_to_exclude criteria); apply _.
Defined.

#[global] Instance include_ok_dec criteria h :
  Decision (include_ok criteria h).
Proof.
  unfold include_ok. destruct (Criteria.labels_to_include criteria); apply _.
Defined.

#[global] Instance condition_ok_dec condition value :
  Decision (condition_ok condition value).
Proof. unfold condition_ok. apply _. Defined.

#[global] Instance meets_dec criteria h : Decision (meets criteria h).
Proof. unfold meets. apply _. Defined.

End Filter.

(* ================================================================== *)
(** * AmenityClassifier and AmenityScorer *)

Module Amenity.
Import Py.

(** An element of the Overpass answer; [tags] is [None] when the key is
    absent. *)
Record Element : Type := mkElement { tags : option (gmap string string) }.

(** Truth value of [d.get(k)] for string values. *)
Definition truthy_str (v : option string) : bool :=
  match v with
  | Some s => negb (String.eqb s "")
  | None => false
  end.

(** [x or y] *)
Definition py_or (x y : option string) : option string :=
  if truthy_str x then x else y.

(** One iteration of the loop over [data["elements"]]: the list
    [all_found_tags] after the iteration. *)
Definition classify_element (all_found_tags : list string)
    (element : Element) : list string :=
  let tags := default ∅ (tags element) in
  let network := default "" (tags !! "network") in
  let operator := default "" (tags !! "operator") in
  let '(all_found_tags, is_station) :=
    if contains "捷運" network || contains "捷運" operator
    then (all_found_tags ++ ["mrt_station"], true)
    else if contains "臺灣鐵路" network || contains "台鐵" network
            || contains "臺灣鐵路" operator || contains "台鐵" operator
    then (all_found_tags ++ ["tra_station"], true)
    else if contains "台灣高速鐵路" operator || contains "高鐵" operator
            || contains "台灣高速鐵路" network || contains "高鐵" network
    then (all_found_tags ++ ["hsr_station"], true)
    else (all_found_tags, false) in
  if negb is_station then
    let tag_value :=
      py_or (tags !! "amenity")
        (py_or (tags !! "shop")
           (py_or (tags !! "leisure") (tags !! "highway"))) in
    match tag_value with
    | Some v => if truthy_str tag_value then all_found_tags ++ [v]
                else all_found_tags
    | None => all_found_tags
    end
  else all_found_tags.

(** [Counter(xs)] *)
Definition Counter (xs : list string) : gmap string Z :=
  foldl (fun m x => <[x := (default 0 (m !! x) + 1)%Z]> m) ∅ xs.

(** The data-processing part of [find_nearby_amenities_with_counts],
    from the decoded answer's elements to the counts. *)
Definition amenity_counts (elements : list Element) : gmap string Z :=
  Counter (foldl classify_element [] elements).

(** [counts.get(key, 0)] *)
Definition get0 (counts : gmap string Z) (key : string) : Z :=
  default 0%Z (counts !! key).

(** The value of the local [score] when the function returns. *)
Definition transit_score (counts : gmap string Z) : Z :=
  let score := 0%Z in
  let score := if (0 <? get0 counts "mrt_station")%Z
               then (score + 1)%Z else score in
  let score := if (0 <? get0 counts "tra_station")%Z
               then (score + 1)%Z else score in
  let score := if (0 <? get0 counts "hsr_station")%Z
               then (score + 1)%Z else score in
  score.

(** The function returns the f-string built around [score]; the lines
    it prints are not part of the value. *)
Definition check_living_function_updated (counts : gmap string Z) : pyval :=
  PStr ("綜合評分: " +:+ pretty (transit_score counts)).

(** ** The classification as an ordered rule list *)

(** Some marker of [markers] occurs in the network or operator name. *)
Definition has_marker (markers : list string) (tags : gmap string string)
  : bool :=
  existsb (fun m => contains m (default "" (tags !! "network"))
                    || contains m (default "" (tags !! "operator")))
          markers.

(** The first of [keys] that carries a non-empty value. *)
Fixpoint first_nonempty (keys : list string) (tags : gmap string string)
  : option string :=
  match keys with
  | [] => None
  | k :: keys' =>
      match tags !! k with
      | Some (String c v) => Some (String c v)
      | _ => first_nonempty keys' tags
      end
  end.

(** Zero or one category for a tag set, first match wins. *)
Definition category (tags : gmap string string) : option string :=
  if has_marker ["捷運"] tags then Some "mrt_station"
  else if has_marker ["臺灣鐵路"; "台鐵"] tags then Some "tra_station"
  else if has_marker ["台灣高速鐵路"; "高鐵"] tags then Some "hsr_station"
  else first_nonempty ["amenity"; "shop"; "leisure"; "highway"] tags.

(** One point for a category that is present. *)
Definition point (count : Z) : Z := if decide (0 < count)%Z then 1%Z else 0%Z.

(** The sum of the three transit rules. *)
Definition rule_sum (counts : gmap string Z) : Z :=
  (point (get0 counts "mrt_station") + point (get0 counts "tra_station")
   + point (get0 counts "hsr_station"))%Z.

End Amenity.

(* ================================================================== *)
(** * Sample data *)

Module Sample.
Import Py.

Definition house_A : Listing.t :=
  Listing.mk "A" 25 121.5 20000000 5 30 (Some []).

Definition house_B : Listing.t :=
  Listing.mk "B" 26 122.5 30000000 20 50 (Some ["temple"]).

(** Within 50 km of (25.0, 121.5), at most 25 million, no temple. *)
Definition near_cheap_no_temple : Criteria.t :=
  Criteria.mk (Some (25, 121.5)%Q) (Some 50%Q) PNone PNone
              (PStr "price<=25000000") (Some ["temple"]) None.

(** A centre with a radius of zero. *)
Definition radius_zero : Criteria.t :=
  Criteria.mk (Some (25, 121.5)%Q) (Some 0%Q) PNone PNone PNone None None.

Definition exclude_temple : Criteria.t :=
  Criteria.mk None None PNone PNone PNone (Some ["temple"]) None.

Definition include_hospital_mrt : Criteria.t :=
  Criteria.mk None None PNone PNone PNone None
              (Some ["hospital"; "MRT station"]).

Definition house_temple_park : Listing.t :=
  Listing.mk "C" 25 121.5 1 1 1 (Some ["temple"; "park"]).

Definition house_park : Listing.t :=
  Listing.mk "D" 25 121.5 1 1 1 (Some ["park"]).

Definition house_hospital : Listing.t :=
  Listing.mk "E" 25 121.5 1 1 1 (Some ["hospital"]).

Definition house_hospital_mrt : Listing.t :=
  Listing.mk "F" 25 121.5 1 1 1 (Some ["MRT station"; "park"; "hospital"]).

Definition counts_mrt_only : gmap string Z :=
  <["mrt_station" := 2%Z]> (<["tra_station" := 0%Z]>
    (<["hsr_station" := 0%Z]> ∅)).

Definition tags_metro : gmap string string :=
  <["network" := "台北捷運"]> (<["railway" := "station"]> ∅).

Definition tags_bank : gmap string string := <["amenity" := "bank"]> ∅.

End Sample.

(* ================================================================== *)
(** * The cleaning step of [get_ai_criteria] *)

Module Translator.

Definition is_open (c : ascii) : bool := (Condition.code c =? 123)%N.
Definition is_close (c : ascii) : bool := (Condition.code c =? 125)%N.

(** The suffix of [s] that starts at its first opening brace. *)
Fixpoint from_first_open (s : string) : option string :=
  match s with
  | EmptyString => None
  | String c t => if is_open c then Some s else from_first_open t
  end.

(** The prefix of [s] that ends with its last closing brace. *)
Fixpoint upto_last_close (s : string) : option string :=
  match s with
  | EmptyString => None
  | String c t =>
      match upto_last_close t with
      | Some p => Some (String c p)
      | None => if is_close c then Some (String c EmptyString) else None
      end
  end.

(** [re.search(r'\{.*\}', response_text, re.DOTALL)] and its
    [group(0)]: the search starts at the leftmost opening brace that has
    a closing brace after it, which is the first opening brace if any
    is, and the greedy [.*] runs to the last closing brace. *)
Definition json_match (response_text : string) : option string :=
  match from_first_open response_text with
  | Some (String c t) =>
      match upto_last_close t with
      | Some p => Some (String c p)
      | None => None
      end
  | _ => None
  end.

Definition no_open (s : string) : bool :=
  Condition.all_chars (fun c => negb (is_open c)) s.
Definition no_close (s : string) : bool :=
  Condition.all_chars (fun c => negb (is_close c)) s.

End Translator.

(* ================================================================== *)
(** * Measures used in the statements *)

Module Measure.
Import Condition.

(** A character that some piece of the pattern can match. *)
Definition in_alphabet (c : ascii) : bool :=
  is_word c || is_space c || is_opchar c || is_numchar c.

Definition is_dot (c : ascii) : bool := (code c =? 46)%N.

(** The number of characters of [s] that satisfy [p]. *)
Fixpoint count_chars (p : ascii → bool) (s : string) : nat :=
  match s with
  | EmptyString => 0
  | String c t => (if p c then 1 else 0) + count_chars p t
  end.

(** The number of occurrences of [k] in [xs]. *)
Definition occurrences (k : string) (xs : list string) : nat :=
  length (filter (fun x => x = k) xs).

(** The category of an element. *)
Definition category_of (element : Amenity.Element) : option string :=
  Amenity.category (default ∅ (Amenity.tags element)).

(** Some element of the answer falls in category [k]. *)
Definition present (k : string) (elements : list Amenity.Element) : Prop :=
  Exists (fun element => category_of element = Some k) elements.

(** The number of elements of the answer that fall in category [k]. *)
Definition elements_in (k : string) (elements : list Amenity.Element) : nat :=
  length (filter (fun element => category_of element = Some k) elements).

(** The counts of a counter, added up. *)
Definition total (counts : gmap string Z) : Z :=
  map_fold (fun _ n acc => (n + acc)%Z) 0%Z counts.

(** One for a true statement, zero for a false one. *)
Definition indicator (P : Prop) `{!Decision P} : Z :=
  if decide P then 1%Z else 0%Z.

End Measure.

Module MoreSamples.
Import Py.

Definition house_unlabelled : Listing.t :=
  Listing.mk "G" 25 121.5 1 1 1 None.

Definition include_mrt_hospital_mrt : Criteria.t :=
  Criteria.mk None None PNone PNone PNone None
              (Some ["MRT station"; "hospital"; "MRT station"]).

Definition within_200_km : Criteria.t :=
  Criteria.mk (Some (25, 121.5)%Q) (Some 200%Q) PNone PNone PNone None None.

Definition vague_price : Criteria.t :=
  Criteria.mk None None PNone PNone (PStr "under 25 million") None None.

Definition station_taipei : Amenity.Element :=
  Amenity.mkElement (Some (<["network" := "台北捷運"]>
                             (<["amenity" := "cafe"]> ∅))).

Definition station_tra : Amenity.Element :=
  Amenity.mkElement (Some (<["operator" := "臺灣鐵路管理局"]> ∅)).

Definition bank : Amenity.Element :=
  Amenity.mkElement (Some Sample.tags_bank).

Definition untagged : Amenity.Element := Amenity.mkElement None.

End MoreSamples.

(* ================================================================== *)
(** * Facts about strings and the scanner *)

(** [simpl] unfolds string concatenation on a constructor. *)
#[local] Arguments String.append !_ _ / : simpl nomatch.

Section StringFacts.
Import Py Condition.

Lemma app_empty_r (s : string) : s +:+ "" = s.
Proof. induction s as [|c s IH]; simpl; congruence. Qed.

Lemma app_assoc_str (a b c : string) : (a +:+ b) +:+ c = a +:+ (b +:+ c).
Proof. induction a as [|x a IH]; simpl; congruence. Qed.

Lemma app_eq_empty (a b : string) : a +:+ b = "" → a = "" ∧ b = "".
Proof. destruct a; simpl; [done | discriminate]. Qed.

Lemma is_empty_false (s : string) : is_empty s = false ↔ s ≠ "".
Proof. destruct s; simpl; split; congruence. Qed.

Lemma all_chars_app p (a b : string) :
  all_chars p (a +:+ b) = all_chars p a && all_chars p b.
Proof.
  induction a as [|c a IH]; simpl; [done |].
  rewrite IH. by rewrite andb_assoc.
Qed.

Lemma all_chars_impl (p q : ascii → bool) (s : string) :
  (∀ c, p c = true → q c = true) →
  all_chars p s = true → all_chars q s = true.
Proof.
  intros Hpq. induction s as [|c s IH]; simpl; [done |].
  intros [Hc Hs]%andb_true_iff. rewrite (Hpq _ Hc). by apply IH.
Qed.

Lemma span_spec p (s a b : string) :
  span p s = (a, b) →
  s = a +:+ b ∧ all_chars p a = true ∧ head_fails p b.
Proof.
  revert a b. induction s as [|c s IH]; simpl; intros a b.
  - intros [= <- <-]. done.
  - destruct (p c) eqn:Hc.
    + destruct (span p s) as [a' b'] eqn:Hs. intros [= <- <-].
      destruct (IH _ _ eq_refl) as (-> & Ha & Hb).
      simpl. rewrite Hc, Ha. done.
    + intros [= <- <-]. simpl. done.
Qed.

Lemma span_app p (a b : string) :
  all_chars p a = true → head_fails p b → span p (a +:+ b) = (a, b).
Proof.
  intros Ha Hb. induction a as [|c a IH]; simpl in *.
  - destruct b as [|c b]; simpl in *; [done | by rewrite Hb].
  - apply andb_true_iff in Ha as [Hc Ha]. rewrite Hc, (IH Ha). done.
Qed.

(** When a non-empty run of class [q] starts [s] and [q] excludes [p]. *)
Lemma head_fails_run (p q : ascii → bool) (a b : string) :
  (∀ c, q c = true → p c = false) →
  all_chars q a = true → a ≠ "" → head_fails p (a +:+ b).
Proof.
  intros Hqp Ha Hne. destruct a as [|c a]; [done |]. simpl in *.
  apply andb_true_iff in Ha as [Hc _]. by apply Hqp.
Qed.

(** The same past a possibly empty run. *)
Lemma head_fails_skip (p q : ascii → bool) (a b : string) :
  (∀ c, q c = true → p c = false) →
  all_chars q a = true → head_fails p b → head_fails p (a +:+ b).
Proof.
  intros Hqp Ha Hb. destruct a as [|c a]; [done |].
  by apply (head_fails_run p q).
Qed.

(** The classes that meet in the pattern are disjoint. *)
Ltac by_cases_on_char :=
  let c := fresh "c" in
  intros c; destruct c as [[] [] [] [] [] [] [] []]; vm_compute; congruence.

Lemma space_not_word c : is_space c = true → is_word c = false.
Proof. revert c. by_cases_on_char. Qed.

Lemma opchar_not_word c : is_opchar c = true → is_word c = false.
Proof. revert c. by_cases_on_char. Qed.

Lemma opchar_not_space c : is_opchar c = true → is_space c = false.
Proof. revert c. by_cases_on_char. Qed.

Lemma space_not_opchar c : is_space c = true → is_opchar c = false.
Proof. revert c. by_cases_on_char. Qed.

Lemma numchar_not_opchar c : is_numchar c = true → is_opchar c = false.
Proof. revert c. by_cases_on_char. Qed.

Lemma numchar_not_space c : is_numchar c = true → is_space c = false.
Proof. revert c. by_cases_on_char. Qed.

Lemma lower_is_word c : is_lower c = true → is_word c = true.
Proof. revert c. by_cases_on_char. Qed.

Lemma space_not_lower c : is_space c = true → is_lower c = false.
Proof. revert c. by_cases_on_char. Qed.

Lemma opchar_not_lower c : is_opchar c = true → is_lower c = false.
Proof. revert c. by_cases_on_char. Qed.

Lemma numchar_not_lower c : is_numchar c = true → is_lower c = false.
Proof. revert c. by_cases_on_char. Qed.

Lemma word_false_not_lower c : is_word c = false → is_lower c = false.
Proof. revert c. by_cases_on_char. Qed.

Lemma at_end_spec (s : string) : at_end s = true ↔ s = "" ∨ s = LF.
Proof.
  destruct s as [|c [|c' s]]; simpl.
  - naive_solver.
  - split.
    + intros H. right. unfold LF, newline. f_equal.
      revert H. destruct c as [[] [] [] [] [] [] [] []]; vm_compute; congruence.
    + intros [?|[= ->]]; [done | by vm_compute].
  - split; [done | intros [?|?]; discriminate].
Qed.

End StringFacts.

(* ================================================================== *)
(** * The scanner agrees with the regular expression *)

Section ScannerFacts.
Import Py Condition.

Lemma after_ident_head rest op num tail :
  after_ident rest op num tail → head_fails is_word rest.
Proof.
  intros (sp1 & sp2 & -> & Hs1 & Hop & Hops & _).
  apply (head_fails_skip _ is_space); auto using space_not_word.
  apply (head_fails_run _ is_opchar); auto using opchar_not_word.
Qed.

Lemma re_match_scan_rest (s : string) :
  re_match s =
  let '(ident, s1) := span is_word s in
  if is_empty ident then None else scan_rest s1.
Proof.
  unfold re_match, scan_rest. destruct (span is_word s) as [ident s1].
  destruct (is_empty ident); [done |].
  destruct (span is_space s1) as [sp1 s2].
  destruct (span is_opchar s2) as [operator s3].
  destruct (is_empty operator); [done |].
  destruct (span is_space s3) as [sp2 s4].
  destruct (span is_numchar s4) as [number rest]. done.
Qed.

Lemma head_fails_tail (p : ascii → bool) (tail : string) :
  p newline = false → tail = "" ∨ tail = LF → head_fails p tail.
Proof. intros Hp [-> | ->]; simpl; done. Qed.

Lemma scan_rest_complete rest op num tail :
  after_ident rest op num tail → tail = "" ∨ tail = LF →
  scan_rest rest = Some (op, num).
Proof.
  intros (sp1 & sp2 & -> & Hs1 & Hop & Hops & Hs2 & Hnum & Hnums) Htail.
  unfold scan_rest.
  rewrite (span_app is_space sp1); [| done |].
  2:{ apply (head_fails_run _ is_opchar); auto using opchar_not_space. }
  rewrite (span_app is_opchar op); [| done |].
  2:{ apply (head_fails_skip _ is_space); auto using space_not_opchar.
      apply (head_fails_run _ is_numchar); auto using numchar_not_opchar. }
  apply is_empty_false in Hop as ->.
  rewrite (span_app is_space sp2); [| done |].
  2:{ apply (head_fails_run _ is_numchar); auto using numchar_not_space. }
  rewrite (span_app is_numchar num); [| done |].
  2:{ by apply head_fails_tail. }
  apply is_empty_false in Hnum as ->.
  by apply at_end_spec in Htail as ->.
Qed.

Lemma scan_rest_sound rest op num :
  scan_rest rest = Some (op, num) →
  ∃ tail, (tail = "" ∨ tail = LF) ∧ after_ident rest op num tail.
Proof.
  unfold scan_rest.
  destruct (span is_space rest) as [sp1 s2] eqn:E1.
  destruct (span is_opchar s2) as [operator s3] eqn:E2.
  destruct (is_empty operator) eqn:Hop; [done |].
  destruct (span is_space s3) as [sp2 s4] eqn:E3.
  destruct (span is_numchar s4) as [number s5] eqn:E4.
  destruct (is_empty number) eqn:Hnum; [done |].
  destruct (at_end s5) eqn:Hend; [| done].
  intros [= <- <-].
  apply span_spec in E1 as (-> & H1 & _).
  apply span_spec in E2 as (-> & H2 & _).
  apply span_spec in E3 as (-> & H3 & _).
  apply span_spec in E4 as (-> & H4 & _).
  exists s5. split; [by apply at_end_spec |].
  exists sp1, sp2. by rewrite !is_empty_false in *.
Qed.

Lemma pattern_accepted_with s op num :
  pattern s op num ↔ accepted_with s op num "".
Proof.
  split.
  - intros (ident & sp1 & sp2 & -> & ? & ? & ? & ? & ? & ? & ? & ?).
    exists ident, (sp1 +:+ op +:+ sp2 +:+ num). split_and!; try done.
    exists sp1, sp2. by rewrite app_empty_r.
  - intros (ident & rest & -> & ? & ? & sp1 & sp2 & -> & ? & ? & ? & ? & ? & ?).
    exists ident, sp1, sp2. by rewrite app_empty_r.
Qed.

Lemma after_ident_add_tail rest op num tail :
  after_ident rest op num "" → after_ident (rest +:+ tail) op num tail.
Proof.
  intros (sp1 & sp2 & -> & H). exists sp1, sp2. split; [| done].
  by rewrite app_empty_r, !app_assoc_str.
Qed.

Lemma after_ident_cut_tail rest op num tail :
  after_ident rest op num tail →
  ∃ rest0, rest = rest0 +:+ tail ∧ after_ident rest0 op num "".
Proof.
  intros (sp1 & sp2 & -> & H). exists (sp1 +:+ op +:+ sp2 +:+ num). split.
  - by rewrite !app_assoc_str.
  - exists sp1, sp2. split; [| done]. by rewrite app_empty_r.
Qed.

Lemma accepted_iff s op num :
  accepted s op num ↔
  ∃ tail, (tail = "" ∨ tail = LF) ∧ accepted_with s op num tail.
Proof.
  split.
  - intros [H | (s0 & -> & H)].
    + exists "". split; [by left | by apply pattern_accepted_with].
    + exists LF. split; [by right |].
      apply pattern_accepted_with in H as (ident & rest & -> & ? & ? & H).
      exists ident, (rest +:+ LF). split_and!; try done.
      * by rewrite app_assoc_str.
      * by apply after_ident_add_tail.
  - intros (tail & [-> | ->] & H).
    + left. by apply pattern_accepted_with.
    + right. destruct H as (ident & rest & -> & ? & ? & H).
      apply after_ident_cut_tail in H as (rest0 & -> & H).
      exists (ident +:+ rest0). split; [by rewrite app_assoc_str |].
      apply pattern_accepted_with. by exists ident, rest0.
Qed.

(** The scanner returns groups 1 and 2 exactly on the strings the
    regular expression accepts, so it is [re.match] for this pattern. *)
Lemma re_match_iff_accepted s op num :
  re_match s = Some (op, num) ↔ accepted s op num.
Proof.
  rewrite accepted_iff, re_match_scan_rest. split.
  - destruct (span is_word s) as [ident s1] eqn:E.
    destruct (is_empty ident) eqn:Hid; [done |].
    intros (tail & Htail & Hrest)%scan_rest_sound.
    apply span_spec in E as (-> & Hw & _).
    exists tail. split; [done |]. exists ident, s1.
    by rewrite is_empty_false in Hid.
  - intros (tail & Htail & ident & rest & -> & Hne & Hw & Hrest).
    rewrite (span_app is_word ident rest Hw (after_ident_head _ _ _ _ Hrest)).
    apply is_empty_false in Hne as ->. by eapply scan_rest_complete.
Qed.

End ScannerFacts.

(* ================================================================== *)
(** * The library functions on sample inputs *)

Section LibraryChecks.
Import Py Condition.

Example replace_field_name :
  replace "a price of size" "price" "value" = "a value of size".
Proof. reflexivity. Qed.

Example replace_leftmost_first : replace "aaa" "aa" "b" = "ba".
Proof. reflexivity. Qed.

Example normalise_mileage : normalise "mileage<=9" = "milevalue<=9".
Proof. reflexivity. Qed.

Example re_match_groups :
  re_match "value  >=30.5" = Some (">=", "30.5")
  ∧ re_match ("value<1" +:+ LF) = Some ("<", "1")
  ∧ re_match "value < 1 " = None
  ∧ re_match "<= 5" = None
  ∧ re_match "value ~~ 100" = None.
Proof. by vm_compute. Qed.

Example float_integer : float_is "100" 100 = true.
Proof. by vm_compute. Qed.

Example float_trailing_dot : float_is "1." 1 = true.
Proof. by vm_compute. Qed.

Example float_leading_dot : float_is ".5" (1 # 2) = true.
Proof. by vm_compute. Qed.

(** One tenth is rounded to the nearest double. *)
Example float_tenth :
  float_is "0.1" (3602879701896397 # 36028797018963968) = true.
Proof. by vm_compute. Qed.

(** Above [2^53] a tie goes to the even significand. *)
Example float_tie_to_even :
  float_is "9007199254740993" 9007199254740992 = true.
Proof. by vm_compute. Qed.

Example float_rejects :
  py_float "." = raise ValueError ∧ py_float "1.2.3" = raise ValueError.
Proof. by vm_compute. Qed.

End LibraryChecks.

(* ================================================================== *)
(** * [str.replace] inside identifiers *)

Section ReplaceFacts.
Import Py Condition.

(** [old] and [new] are non-empty runs of lower-case letters, as
    the three field names and ["value"] are. *)
Variables old new : string.
Hypothesis old_nonempty : old ≠ "".
Hypothesis old_lower : all_chars is_lower old = true.
Hypothesis new_nonempty : new ≠ "".
Hypothesis new_lower : all_chars is_lower new = true.

Lemma prefix_length (a b : string) :
  String.prefix a b = true → String.length a ≤ String.length b.
Proof.
  revert a. induction b as [|c b IH]; intros [|x a]; simpl; try done; try lia.
  destruct (ascii_dec x c); [| done]. intros H%IH. lia.
Qed.

(** An occurrence of a lower-case word cannot run over a character
    that is not a lower-case letter. *)
Lemma prefix_app_boundary (o x b : string) :
  o ≠ "" → all_chars is_lower o = true → head_fails is_lower b →
  String.prefix o (x +:+ b) = String.prefix o x.
Proof.
  intros Hne Ho Hb. revert o Hne Ho.
  induction x as [|c x IH]; intros [|y o] Hne Ho; try done; simpl in *.
  - destruct b as [|c b]; simpl in *; [done |].
    destruct (ascii_dec y c) as [-> |]; [| done].
    apply andb_true_iff in Ho as [Hc _]. congruence.
  - destruct (ascii_dec y c); [| done].
    destruct o as [|z o]; [by destruct x, b |].
    apply IH; [done |]. by apply andb_true_iff in Ho as [_ ?].
Qed.

Lemma replace_go_empty skip : replace_go old new skip "" = "".
Proof. destruct old; [done | by destruct skip]. Qed.

(** Replacement works on the two sides of such a character
    independently. *)
Lemma replace_go_app (a b : string) skip :
  head_fails is_lower b → skip ≤ String.length a →
  replace_go old new skip (a +:+ b)
  = replace_go old new skip a +:+ replace_go old new 0 b.
Proof.
  intros Hb. revert skip. induction a as [|c a IH]; intros skip Hskip.
  - simpl in Hskip. assert (skip = 0) as -> by lia.
    by rewrite replace_go_empty.
  - destruct skip as [|k].
    + change (String c a +:+ b) with (String c (a +:+ b)).
      cbn [replace_go].
      change (String c (a +:+ b)) with (String c a +:+ b).
      rewrite (prefix_app_boundary old (String c a) b) by done.
      destruct (String.prefix old (String c a)) eqn:Hpre.
      * destruct old as [|o old'] eqn:Hold; [done |].
        apply prefix_length in Hpre. simpl in Hpre.
        rewrite IH by lia. by rewrite app_assoc_str.
      * simpl. by rewrite IH by lia.
    + simpl. simpl in Hskip. apply IH. lia.
Qed.

(** A text without lower-case letters is left alone. *)
Lemma replace_go_fixed (r : string) :
  all_chars not_lower r = true → replace_go old new 0 r = r.
Proof.
  induction r as [|c r IH]; [intros _; apply replace_go_empty |].
  simpl. intros [Hc Hr]%andb_true_iff.
  destruct old as [|o old'] eqn:Hold; [done |]. simpl.
  destruct (ascii_dec o c) as [-> |].
  - simpl in old_lower. apply andb_true_iff in old_lower as [Ho _].
    unfold not_lower in Hc. rewrite Ho in Hc. done.
  - by rewrite IH.
Qed.

Lemma replace_go_all_chars (p : ascii → bool) (s : string) skip :
  all_chars p new = true → all_chars p s = true →
  all_chars p (replace_go old new skip s) = true.
Proof.
  intros Hnew. revert skip. induction s as [|c s IH]; intros skip Hs.
  - by rewrite replace_go_empty.
  - simpl in Hs. apply andb_true_iff in Hs as [Hc Hs].
    destruct skip as [|k]; [| by apply IH].
    cbn [replace_go]. destruct (String.prefix old (String c s)).
    + destruct old as [|o old']; [done |].
      rewrite all_chars_app, Hnew. by apply IH.
    + simpl. rewrite Hc. by apply IH.
Qed.

Lemma replace_go_nonempty (s : string) :
  s ≠ "" → replace_go old new 0 s ≠ "".
Proof.
  destruct s as [|c s]; [done |]. intros _. cbn [replace_go].
  destruct (String.prefix old (String c s)); [| done].
  destruct old as [|o old']; [done |].
  destruct new as [|n new']; done.
Qed.

(** No replacement happened when the result has no lower-case letter. *)
Lemma replace_go_no_new (s : string) :
  all_chars not_lower (replace_go old new 0 s) = true →
  replace_go old new 0 s = s.
Proof.
  induction s as [|c s IH]; [intros _; apply replace_go_empty |].
  cbn [replace_go]. destruct (String.prefix old (String c s)).
  - destruct old as [|o old']; [done |].
    destruct new as [|n new']; [done |]. simpl.
    simpl in new_lower. apply andb_true_iff in new_lower as [Hn _].
    unfold not_lower at 1. by rewrite Hn.
  - simpl. intros [_ H]%andb_true_iff. by rewrite IH.
Qed.

Lemma replace_go_head (p : ascii → bool) (b : string) :
  head_fails is_lower b → head_fails p b →
  head_fails p (replace_go old new 0 b).
Proof.
  destruct b as [|c b]; [by rewrite replace_go_empty |].
  intros Hl Hp. cbn [replace_go].
  destruct old as [|o old'] eqn:Hold; [done |]. simpl in *.
  destruct (ascii_dec o c) as [-> |]; [| done].
  apply andb_true_iff in old_lower as [Ho _]. congruence.
Qed.

Lemma after_ident_not_lower rest op num tail :
  after_ident rest op num tail → tail = "" ∨ tail = LF →
  all_chars not_lower rest = true.
Proof.
  intros (sp1 & sp2 & -> & Hs1 & _ & Hop & Hs2 & _ & Hnum) Htail.
  rewrite !all_chars_app. repeat (apply andb_true_iff; split).
  - apply (all_chars_impl is_space); [| done].
    intros c Hc. unfold not_lower. by rewrite space_not_lower.
  - apply (all_chars_impl is_opchar); [| done].
    intros c Hc. unfold not_lower. by rewrite opchar_not_lower.
  - apply (all_chars_impl is_space); [| done].
    intros c Hc. unfold not_lower. by rewrite space_not_lower.
  - apply (all_chars_impl is_numchar); [| done].
    intros c Hc. unfold not_lower. by rewrite numchar_not_lower.
  - by destruct Htail as [-> | ->].
Qed.

Lemma head_fails_word_lower (b : string) :
  head_fails is_word b → head_fails is_lower b.
Proof. destruct b; [done |]. apply word_false_not_lower. Qed.

(** Replacing inside the identifier keeps a string accepted... *)
Lemma accepted_with_replace s op num tail :
  tail = "" ∨ tail = LF →
  accepted_with s op num tail →
  accepted_with (replace s old new) op num tail.
Proof.
  intros Htail (ident & rest & -> & Hne & Hw & Hrest).
  pose proof (after_ident_head _ _ _ _ Hrest) as Hhead.
  unfold replace.
  rewrite replace_go_app by (auto using head_fails_word_lower; lia).
  rewrite (replace_go_fixed rest) by (by eapply after_ident_not_lower).
  exists (replace_go old new 0 ident), rest. split_and!; try done.
  - by apply replace_go_nonempty.
  - apply replace_go_all_chars; [| done].
    apply (all_chars_impl is_lower); auto using lower_is_word.
Qed.

(** ... and only accepted strings become accepted. *)
Lemma accepted_with_replace_inv s op num tail :
  tail = "" ∨ tail = LF →
  accepted_with (replace s old new) op num tail →
  accepted_with s op num tail.
Proof.
  intros Htail (ident & rest & Heq & Hne & Hw & Hrest).
  destruct (span is_word s) as [a b] eqn:Hspan.
  apply span_spec in Hspan as (-> & Ha & Hb).
  unfold replace in Heq.
  rewrite replace_go_app in Heq by (auto using head_fails_word_lower; lia).
  assert (span is_word (ident +:+ rest) = (ident, rest)) as E1.
  { apply span_app; [done |]. by eapply after_ident_head. }
  rewrite <- Heq in E1. rewrite span_app in E1.
  - injection E1 as <- <-.
    rewrite replace_go_no_new in Hrest
      by (by eapply after_ident_not_lower).
    exists a, b. split_and!; try done.
    intros ->. by rewrite replace_go_empty in Hne.
  - apply replace_go_all_chars; [| done].
    apply (all_chars_impl is_lower); auto using lower_is_word.
  - apply replace_go_head; auto using head_fails_word_lower.
Qed.

Lemma accepted_replace s op num :
  accepted (replace s old new) op num ↔ accepted s op num.
Proof.
  rewrite !accepted_iff. split; intros (tail & Htail & H); exists tail;
    (split; [done |]);
    eauto using accepted_with_replace, accepted_with_replace_inv.
Qed.

End ReplaceFacts.

Section NormaliseFacts.
Import Py Condition.

(** The three replacements of [normalise] do not change which strings
    are accepted, nor the operator and number read from them. *)
Lemma accepted_normalise s op num :
  accepted (normalise s) op num ↔ accepted s op num.
Proof.
  unfold normalise. rewrite !accepted_replace; done.
Qed.

Lemma re_match_normalise s op num :
  re_match (normalise s) = Some (op, num) ↔ accepted s op num.
Proof. by rewrite re_match_iff_accepted, accepted_normalise. Qed.

Lemma re_match_normalise_none s :
  re_match (normalise s) = None ↔ ¬ ∃ op num, accepted s op num.
Proof.
  split.
  - intros H (op & num & Hacc%re_match_normalise). congruence.
  - intros H. destruct (re_match (normalise s)) as [[op num]|] eqn:E;
      [| done].
    destruct H. exists op, num. by apply re_match_normalise.
Qed.

(** An accepted string is not empty, hence true as a condition. *)
Lemma accepted_nonempty s op num : accepted s op num → s ≠ "".
Proof.
  intros [H | (s0 & -> & H)].
  - destruct H as (ident & ? & ? & -> & Hne & _).
    by destruct ident.
  - by destruct s0.
Qed.

End NormaliseFacts.

(* ================================================================== *)
(** * ConditionExpression: properties *)

Section ConditionFacts.
Import Py Condition.

(** On a non-empty string the function is its [try] block, with any
    exception turned into [True]. *)
Lemma evaluate_nonempty (v : pyval) (s : string) :
  s ≠ "" →
  evaluate_sql_condition v (PStr s) = try_except (evaluate_body v s) true.
Proof.
  intros Hs. unfold evaluate_sql_condition. simpl.
  by apply String.eqb_neq in Hs as ->.
Qed.

Lemma evaluate_empty (v : pyval) : evaluate_sql_condition v (PStr "") = true.
Proof. done. Qed.

Lemma evaluate_not_str (v c : pyval) :
  isinstance_str c = false → evaluate_sql_condition v c = true.
Proof.
  intros Hc. unfold evaluate_sql_condition. rewrite Hc.
  by rewrite orb_true_r.
Qed.

Lemma evaluate_total (v : pyval) (s : string) :
  evaluate_sql_condition v (PStr s) = try_except (evaluate_body v s) true
  ∨ evaluate_sql_condition v (PStr s) = true.
Proof.
  destruct s as [|c s]; [by right | left]. by apply evaluate_nonempty.
Qed.

Lemma evaluate_no_match (v : pyval) (s : string) :
  re_match (normalise s) = None → evaluate_sql_condition v (PStr s) = true.
Proof.
  intros H. destruct (evaluate_total v s) as [-> | ->]; [| done].
  unfold evaluate_body. by rewrite H.
Qed.

Lemma evaluate_raises (v : pyval) (s : string) (e : exn) :
  evaluate_body v s = inl e → evaluate_sql_condition v (PStr s) = true.
Proof.
  intros H. destruct (evaluate_total v s) as [-> | ->]; [| done].
  by rewrite H.
Qed.

(** The function sees a condition only through the operator and the
    number text read from it. *)
Lemma evaluate_same_groups (v : pyval) (s1 s2 op num : string) :
  accepted s1 op num → accepted s2 op num →
  evaluate_sql_condition v (PStr s1) = evaluate_sql_condition v (PStr s2).
Proof.
  intros H1 H2.
  rewrite !evaluate_nonempty by (by eapply accepted_nonempty).
  unfold evaluate_body.
  apply re_match_normalise in H1 as ->.
  by apply re_match_normalise in H2 as ->.
Qed.

Lemma Qlt_bool_iff (x y : Q) : Qlt_bool x y = true ↔ (x < y)%Q.
Proof.
  unfold Qlt_bool. rewrite negb_true_iff, <- not_true_iff_false.
  rewrite Qle_bool_iff. split; [apply Qnot_le_lt | apply Qlt_not_le].
Qed.

(** The six branches compute the comparisons of [holds]. *)
Lemma supported_operator (q : Q) (s num : string) (o : comparison_op)
    (t : pyfloat) :
  accepted s (op_text o) num → py_float num = inr t →
  evaluate_sql_condition (PNum q) (PStr s) = true ↔ holds o q t.
Proof.
  intros Hacc Hfloat.
  rewrite evaluate_nonempty by (by eapply accepted_nonempty).
  unfold evaluate_body.
  apply re_match_normalise in Hacc as ->. rewrite Hfloat.
  destruct o, t as [r|]; simpl;
    rewrite ?Qle_bool_iff, ?Qlt_bool_iff, ?negb_true_iff,
            <- ?not_true_iff_false, ?Qeq_bool_iff;
    try done; split; done.
Qed.

(** An accepted operator outside the six reaches the final
    [return True]. *)
Lemma unsupported_operator (v : pyval) (s op num : string) :
  accepted s op num → (∀ o, op ≠ op_text o) →
  evaluate_sql_condition v (PStr s) = true.
Proof.
  intros Hacc Hop.
  rewrite evaluate_nonempty by (by eapply accepted_nonempty).
  unfold evaluate_body.
  apply re_match_normalise in Hacc as ->.
  destruct (py_float num) as [e | t]; [done |]. simpl.
  assert (∀ o, String.eqb op (op_text o) = false) as Hneq
    by (intros o; by apply String.eqb_neq).
  pose proof (Hneq OpLe) as H1. pose proof (Hneq OpGe) as H2.
  pose proof (Hneq OpLt) as H3. pose proof (Hneq OpGt) as H4.
  pose proof (Hneq OpEq) as H5. pose proof (Hneq OpNe) as H6.
  simpl in H1, H2, H3, H4, H5, H6.
  by rewrite H1, H2, H3, H4, H5, H6.
Qed.

Lemma last_char_app (a b : string) :
  b ≠ "" → last_char (a +:+ b) = last_char b.
Proof.
  intros Hb. induction a as [|c a IH]; [done |].
  simpl. rewrite IH. destruct (a +:+ b) eqn:E; [| done].
  apply app_eq_empty in E as [_ ?]. done.
Qed.

Lemma last_char_all (p : ascii → bool) (s : string) :
  s ≠ "" → all_chars p s = true → ∃ c, last_char s = Some c ∧ p c = true.
Proof.
  induction s as [|c s IH]; [done |]. intros _ [Hc Hs]%andb_true_iff.
  destruct s as [|c' s']; [by exists c |].
  destruct IH as (x & Hx & Hpx); [done | done |]. by exists x.
Qed.

(** A string of the pattern ends with a character of its number. *)
Lemma pattern_last_char s op num :
  pattern s op num → ∃ c, last_char s = Some c ∧ is_numchar c = true.
Proof.
  intros (ident & sp1 & sp2 & -> & _ & _ & _ & _ & _ & _ & Hne & Hnum).
  rewrite !last_char_app;
    try (intros E; repeat apply app_eq_empty in E as [_ E]; done).
  by apply last_char_all.
Qed.

End ConditionFacts.

Section ConditionClaims.
Import Py Condition.










End ConditionClaims.

(* ================================================================== *)
(** * GeoDistance: properties *)

Section GeoFacts.
Import Geo.
Local Open Scope R_scope.

Lemma haversine_hav_a lat1 lon1 lat2 lon2 :
  haversine lat1 lon1 lat2 lon2
  = R_earth * (2 * atan2 (sqrt (hav_a lat1 lon1 lat2 lon2))
                         (sqrt (1 - hav_a lat1 lon1 lat2 lon2))).
Proof. reflexivity. Qed.

Lemma sin_half_diff_sqr (x y : R) :
  sin ((y - x) / 2) ^ 2 = sin ((x - y) / 2) ^ 2.
Proof.
  replace ((y - x) / 2) with (- ((x - y) / 2)) by lra.
  rewrite sin_neg. ring.
Qed.

Lemma hav_a_sym lat1 lon1 lat2 lon2 :
  hav_a lat1 lon1 lat2 lon2 = hav_a lat2 lon2 lat1 lon1.
Proof.
  unfold hav_a.
  rewrite (sin_half_diff_sqr (radians lat1) (radians lat2)).
  rewrite (sin_half_diff_sqr (radians lon1) (radians lon2)).
  ring.
Qed.

Lemma hav_a_refl lat lon : hav_a lat lon lat lon = 0.
Proof.
  unfold hav_a. replace ((radians lat - radians lat) / 2) with 0 by lra.
  replace ((radians lon - radians lon) / 2) with 0 by lra.
  rewrite sin_0. ring.
Qed.

Lemma atan2_0_1 : atan2 0 1 = 0.
Proof.
  unfold atan2. destruct (Rlt_dec 0 1) as [_ | H]; [| lra].
  replace (0 / 1) with 0 by lra. apply atan_0.
Qed.

(** A point is at distance zero from itself. *)
Lemma haversine_refl lat lon : haversine lat lon lat lon = 0.
Proof.
  rewrite haversine_hav_a, hav_a_refl, Rminus_0_r, sqrt_0, sqrt_1, atan2_0_1.
  ring.
Qed.

Lemma atan2_pos (y x : R) : 0 < y → 0 <= x → 0 < atan2 y x.
Proof.
  intros Hy Hx. unfold atan2.
  destruct (Rlt_dec 0 x) as [Hx' | Hx'].
  - rewrite <- atan_0. apply atan_increasing.
    by apply Rdiv_lt_0_compat.
  - destruct (Rlt_dec x 0); [lra |].
    destruct (Rlt_dec 0 y); [| lra].
    pose proof PI_RGT_0. lra.
Qed.

(** Two points on different parallels less than a full turn apart are
    at a positive distance. *)
Lemma haversine_pos lat1 lon1 lat2 lon2 :
  -90 <= lat1 <= 90 → -90 <= lat2 <= 90 → lat1 < lat2 →
  0 < haversine lat1 lon1 lat2 lon2.
Proof.
  intros H1 H2 Hlt. rewrite haversine_hav_a.
  pose proof PI_RGT_0 as Hpi.
  assert (0 < hav_a lat1 lon1 lat2 lon2) as Ha.
  { unfold hav_a.
    assert (0 < sin ((radians lat2 - radians lat1) / 2)) as Hs.
    { apply sin_gt_0; unfold radians; nra. }
    assert (0 <= cos (radians lat1)) as Hc1
      by (apply cos_ge_0; unfold radians; nra).
    assert (0 <= cos (radians lat2)) as Hc2
      by (apply cos_ge_0; unfold radians; nra).
    assert (0 <= sin ((radians lon2 - radians lon1) / 2) ^ 2) as Hs2
      by (apply pow2_ge_0).
    assert (0 < sin ((radians lat2 - radians lat1) / 2) ^ 2) by nra.
    assert (0 <= cos (radians lat1) * cos (radians lat2)) by nra.
    nra. }
  unfold R_earth.
  assert (0 < atan2 (sqrt (hav_a lat1 lon1 lat2 lon2))
                    (sqrt (1 - hav_a lat1 lon1 lat2 lon2))).
  { apply atan2_pos; [by apply sqrt_lt_R0 | apply sqrt_pos]. }
  nra.
Qed.

(** C8: over the real numbers the haversine distance does not depend
    on the order of its two points. *)
Theorem C8_haversine_symmetric (lat1 lon1 lat2 lon2 : R) :
  haversine lat1 lon1 lat2 lon2 = haversine lat2 lon2 lat1 lon1.
Proof.
  rewrite !haversine_hav_a. by rewrite (hav_a_sym lat1 lon1 lat2 lon2).
Qed.

End GeoFacts.

(* ================================================================== *)
(** * ListingFilterEngine: properties *)

Section FilterFacts.
Import Py Filter.

(** A list comprehension with a boolean test is the filter by the
    property the test decides. *)
Lemma List_filter_Prop {A} (f : A → bool) (P : A → Prop)
    `{!∀ x, Decision (P x)} (l : list A) :
  (∀ x, f x = true ↔ P x) → List.filter f l = filter P l.
Proof.
  intros Hf. induction l as [|x l IH]; [done |].
  simpl. rewrite filter_cons, IH.
  destruct (f x) eqn:E, (decide (P x)) as [HP | HP]; try done.
  - by apply Hf in E.
  - apply Hf in HP. congruence.
Qed.

Lemma filter_all {A} (P : A → Prop) `{!∀ x, Decision (P x)} (l : list A) :
  (∀ x, P x) → filter P l = l.
Proof.
  intros HP. induction l as [|x l IH]; [done |].
  by rewrite filter_cons_True, IH.
Qed.

Lemma evaluate_falsy (v condition : pyval) :
  truthy condition = false →
  Condition.evaluate_sql_condition v condition = true.
Proof. intros H. unfold Condition.evaluate_sql_condition. by rewrite H. Qed.

Lemma Rle_bool_true (x y : R) : Geo.Rle_bool x y = true ↔ (x <= y)%R.
Proof. unfold Geo.Rle_bool. by destruct (Rle_dec x y). Qed.

(** ** Each stage is the filter by its constraint *)

Lemma stage_location_spec (c : Criteria.t) (L : list Listing.t) :
  stage_location c L = filter (location_ok c) L.
Proof.
  unfold stage_location, Criteria.get_location, Criteria.get_distance.
  destruct (Criteria.location c) as [[clat clon]|] eqn:Hloc; simpl.
  - destruct (Criteria.distance c) as [d|] eqn:Hdist; simpl.
    + destruct (Qeq_bool d 0) eqn:Hd; simpl.
      * symmetry. apply filter_all. intros h. unfold location_ok.
        by rewrite Hloc, Hdist, Hd.
      * rewrite (List_filter_Prop _ (within clat clon d))
          by (intros h; apply Rle_bool_true).
        apply list_filter_iff. intros h. unfold location_ok.
        by rewrite Hloc, Hdist, Hd.
    + symmetry. apply filter_all. intros h. unfold location_ok.
      by rewrite Hloc, Hdist.
  - symmetry. apply filter_all. intros h. unfold location_ok.
    by rewrite Hloc.
Qed.

Lemma stage_condition_spec (condition : pyval) (field : Listing.t → Q)
    (L : list Listing.t) :
  stage_condition condition field L
  = filter (fun h => condition_ok condition (field h)) L.
Proof.
  unfold stage_condition. destruct (truthy condition) eqn:Ht.
  - by apply List_filter_Prop.
  - symmetry. apply filter_all. intros h. by apply evaluate_falsy.
Qed.

Lemma disjoint_avoids (exclude : list string) (h : Listing.t) :
  negb (bool_decide (set_of exclude ∩ label_set h ≠ ∅)) = true
  ↔ avoids exclude h.
Proof.
  rewrite negb_true_iff, bool_decide_eq_false.
  unfold avoids, label_set, set_of. rewrite Forall_forall.
  split.
  - intros H x Hx Hin. apply H. apply (non_empty_inhabited_L x).
    apply elem_of_intersection. by rewrite !elem_of_list_to_set.
  - intros H Hne. apply set_choose_L in Hne as (x & Hx).
    apply elem_of_intersection in Hx as [H1 H2].
    rewrite elem_of_list_to_set in H1, H2. by apply (H x).
Qed.

Lemma subset_carries (include : list string) (h : Listing.t) :
  bool_decide (set_of include ⊆ label_set h) = true ↔ carries include h.
Proof.
  rewrite bool_decide_eq_true.
  unfold carries, label_set, set_of. rewrite Forall_forall.
  rewrite elem_of_subseteq. by setoid_rewrite elem_of_list_to_set.
Qed.

Lemma stage_exclude_spec (c : Criteria.t) (L : list Listing.t) :
  stage_exclude c L = filter (exclude_ok c) L.
Proof.
  unfold stage_exclude, Criteria.get_labels.
  destruct (Criteria.labels_to_exclude c) as [[|x xs]|] eqn:Hex; simpl.
  - symmetry. apply filter_all. intros h. unfold exclude_ok.
    rewrite Hex. constructor.
  - rewrite (List_filter_Prop _ (avoids (x :: xs)))
      by (intros h; apply disjoint_avoids).
    apply list_filter_iff. intros h. unfold exclude_ok. by rewrite Hex.
  - symmetry. apply filter_all. intros h. unfold exclude_ok. by rewrite Hex.
Qed.

Lemma stage_include_spec (c : Criteria.t) (L : list Listing.t) :
  stage_include c L = filter (include_ok c) L.
Proof.
  unfold stage_include, Criteria.get_labels.
  destruct (Criteria.labels_to_include c) as [[|x xs]|] eqn:Hin; simpl.
  - symmetry. apply filter_all. intros h. unfold include_ok.
    rewrite Hin. constructor.
  - rewrite (List_filter_Prop _ (carries (x :: xs)))
      by (intros h; apply subset_carries).
    apply list_filter_iff. intros h. unfold include_ok. by rewrite Hin.
  - symmetry. apply filter_all. intros h. unfold include_ok. by rewrite Hin.
Qed.

(** ** The whole function *)

(** The six stages in sequence, then the cut at ten. *)
Lemma filter_houses_stages (L : list Listing.t) (c : Criteria.t) :
  filter_houses L c
  = take 10
      (stage_include c
         (stage_exclude c
            (stage_condition (Criteria.size c) Listing.size
               (stage_condition (Criteria.age c) Listing.age
                  (stage_condition (Criteria.price c) Listing.price
                     (stage_location c L)))))).
Proof.
  destruct L as [|h L]; [| done]. simpl.
  by rewrite stage_location_spec, !stage_condition_spec,
    stage_exclude_spec, stage_include_spec.
Qed.

(** One pass over the listings with the conjunction of the
    constraints. *)
Lemma filter_houses_meets (L : list Listing.t) (c : Criteria.t) :
  filter_houses L c = take 10 (filter (meets c) L).
Proof.
  rewrite filter_houses_stages.
  rewrite stage_location_spec, !stage_condition_spec,
    stage_exclude_spec, stage_include_spec.
  rewrite !list_filter_filter. f_equal.
  apply list_filter_iff. intros h. unfold meets. tauto.
Qed.

(** The scenario of two listings: [A], at the centre and within
    budget, is returned; [B] carries an excluded label and is not. *)
Lemma scenario_two_listings :
  filter_houses [Sample.house_A; Sample.house_B] Sample.near_cheap_no_temple
  = [Sample.house_A].
Proof.
  rewrite filter_houses_meets.
  rewrite filter_cons_True, filter_cons_False; [done | |].
  - intros (_ & _ & _ & _ & Hex & _). unfold exclude_ok in Hex. simpl in Hex.
    apply Forall_cons in Hex as [Hex _]. apply Hex. by left.
  - split_and!; try done.
    + unfold location_ok, within. simpl. rewrite haversine_refl.
      unfold Q2R. simpl. lra.
    + unfold exclude_ok, avoids. simpl. repeat constructor.
      apply not_elem_of_nil.
Qed.

End FilterFacts.

Section FilterClaims.
Import Py Filter.

Lemma Q2R_0 : Q2R 0 = 0%R.
Proof. unfold Q2R. simpl. lra. Qed.






(** C7: with a non-empty exclusion list the exclusion stage retains
    exactly the listings that carry none of its labels; with a
    non-empty inclusion list the inclusion stage retains exactly the
    listings that carry all of its labels, so a listing with only
    some of them is dropped. *)
Theorem C7_label_stages :
  (∀ c L exclude,
     Criteria.labels_to_exclude c = Some exclude → exclude ≠ [] →
     stage_exclude c L = filter (avoids exclude) L)
  ∧ (∀ c L include,
       Criteria.labels_to_include c = Some include → include ≠ [] →
       stage_include c L = filter (carries include) L)
  ∧ filter_houses [Sample.house_temple_park; Sample.house_park]
                  Sample.exclude_temple = [Sample.house_park]
  ∧ filter_houses [Sample.house_hospital; Sample.house_hospital_mrt]
                  Sample.include_hospital_mrt = [Sample.house_hospital_mrt].
Proof.
  split_and!.
  - intros c L exclude Hex _. rewrite stage_exclude_spec.
    apply list_filter_iff. intros h. unfold exclude_ok. by rewrite Hex.
  - intros c L include Hin _. rewrite stage_include_spec.
    apply list_filter_iff. intros h. unfold include_ok. by rewrite Hin.
  - by vm_compute.
  - by vm_compute.
Qed.

(** C7 at the exclusion of ["temple"] and at the inclusion of
    ["hospital"] and ["MRT station"]. *)
Lemma C7_label_stages_witness :
  stage_exclude Sample.exclude_temple
                [Sample.house_temple_park; Sample.house_park]
  = filter (avoids ["temple"]) [Sample.house_temple_park; Sample.house_park]
  ∧ stage_include Sample.include_hospital_mrt
                  [Sample.house_hospital; Sample.house_hospital_mrt]
    = filter (carries ["hospital"; "MRT station"])
             [Sample.house_hospital; Sample.house_hospital_mrt].
Proof.
  destruct C7_label_stages as (Hex & Hin & _). split.
  - apply Hex; [reflexivity | discriminate].
  - apply Hin; [reflexivity | discriminate].
Defined.

End FilterClaims.

(* ================================================================== *)
(** * AmenityClassifier and AmenityScorer: properties *)

Section AmenityFacts.
Import Py Amenity.

Lemma py_or_first_nonempty (tags : gmap string string) :
  let tag_value :=
    py_or (tags !! "amenity")
      (py_or (tags !! "shop") (py_or (tags !! "leisure") (tags !! "highway")))
  in
  (if truthy_str tag_value then tag_value else None)
  = first_nonempty ["amenity"; "shop"; "leisure"; "highway"] tags.
Proof.
  simpl. unfold py_or.
  destruct (tags !! "amenity") as [[|c1 v1]|]; simpl; try done;
  destruct (tags !! "shop") as [[|c2 v2]|]; simpl; try done;
  destruct (tags !! "leisure") as [[|c3 v3]|]; simpl; try done;
  destruct (tags !! "highway") as [[|c4 v4]|]; simpl; done.
Qed.

(** One iteration appends the category of the element, if it has one. *)
Lemma classify_element_category (acc : list string) (element : Element) :
  classify_element acc element
  = acc ++ option_list (category (default ∅ (tags element))).
Proof.
  unfold classify_element, category, has_marker.
  set (t := default ∅ (tags element)).
  set (network := default "" (t !! "network")).
  set (operator := default "" (t !! "operator")).
  cbn [existsb].
  pose proof (py_or_first_nonempty t) as Hgen. cbv zeta in Hgen.
  rewrite <- Hgen. clear Hgen.
  destruct (contains "捷運" network), (contains "捷運" operator);
    try done;
  destruct (contains "臺灣鐵路" network), (contains "台鐵" network),
           (contains "臺灣鐵路" operator), (contains "台鐵" operator);
    try done;
  destruct (contains "台灣高速鐵路" operator), (contains "高鐵" operator),
           (contains "台灣高速鐵路" network), (contains "高鐵" network);
    try done;
  cbn [orb negb];
  destruct (py_or _ _) as [v|] eqn:E; simpl;
    try (destruct (negb _)); simpl; by rewrite ?app_nil_r.
Qed.

Lemma transit_score_rule_sum (counts : gmap string Z) :
  transit_score counts = rule_sum counts.
Proof.
  unfold transit_score, rule_sum, point.
  repeat case_decide;
    repeat match goal with
           | |- context [(0 <? ?x)%Z] => destruct (Z.ltb_spec 0 x)
           end; lia.
Qed.

Lemma rule_sum_range (counts : gmap string Z) : (0 ≤ rule_sum counts ≤ 3)%Z.
Proof. unfold rule_sum, point. repeat case_decide; lia. Qed.

End AmenityFacts.

Section AmenityClaims.
Import Py Amenity.

(** C2, as stated, fails on the type of the result: for the counts
    [{mrt_station: 2, tra_station: 0, hsr_station: 0}] the function
    returns a text, not the integer 1. *)
Lemma C2_counterexample_returns_text :
  check_living_function_updated Sample.counts_mrt_only = PStr "綜合評分: 1"
  ∧ check_living_function_updated Sample.counts_mrt_only ≠ PNum 1.
Proof. split; [by vm_compute | discriminate]. Qed.

(** C2 (amended): the score is the sum of the three independent
    transit rules, one point for each of [mrt_station], [tra_station]
    and [hsr_station] whose count is positive, hence an integer from 0
    to 3; the function returns the text ["綜合評分: "] followed by the
    score in decimal, which is ["綜合評分: 1"] for the counts
    [{mrt_station: 2, tra_station: 0, hsr_station: 0}]. *)
Theorem C2_score_text :
  (∀ counts, check_living_function_updated counts
             = PStr ("綜合評分: " +:+ pretty (rule_sum counts)))
  ∧ (∀ counts, (0 ≤ rule_sum counts ≤ 3)%Z)
  ∧ rule_sum Sample.counts_mrt_only = 1%Z
  ∧ check_living_function_updated Sample.counts_mrt_only
    = PStr "綜合評分: 1".
Proof.
  split_and!.
  - intros counts. unfold check_living_function_updated.
    by rewrite transit_score_rule_sum.
  - apply rule_sum_range.
  - by vm_compute.
  - by vm_compute.
Qed.

(** C6: one pass of the classifier over an element appends at most
    one category, chosen by the first rule that matches: the metro
    marker, then either national-rail marker, then either
    high-speed-rail marker in the network or operator name, then the
    first non-empty value among [amenity], [shop], [leisure] and
    [highway]; an element with none of these adds nothing.  A metro
    station is [mrt_station], a bank is [bank], the empty tag set has
    no category. *)
Theorem C6_first_match_category :
  (∀ acc element,
     classify_element acc element
     = acc ++ option_list (category (default ∅ (tags element))))
  ∧ classify_element [] (mkElement (Some Sample.tags_metro))
    = ["mrt_station"]
  ∧ classify_element [] (mkElement (Some Sample.tags_bank)) = ["bank"]
  ∧ classify_element [] (mkElement (Some ∅)) = [].
Proof.
  split_and!; [apply classify_element_category | by vm_compute ..].
Qed.

End AmenityClaims.

(* ================================================================== *)
(** * ConditionExpression: further properties *)

Section ConditionMore.
Import Py Condition Measure.

Lemma pattern_alphabet s op num :
  pattern s op num → all_chars in_alphabet s = true.
Proof.
  intros (ident & sp1 & sp2 & -> & _ & Hw & Hs1 & _ & Hop & Hs2 & _ & Hnum).
  rewrite !all_chars_app. repeat (apply andb_true_iff; split).
  - apply (all_chars_impl is_word); [| done].
    intros c Hc. unfold in_alphabet. by rewrite Hc.
  - apply (all_chars_impl is_space); [| done].
    intros c Hc. unfold in_alphabet. by rewrite Hc, orb_true_r.
  - apply (all_chars_impl is_opchar); [| done].
    intros c Hc. unfold in_alphabet. by rewrite Hc, !orb_true_r.
  - apply (all_chars_impl is_space); [| done].
    intros c Hc. unfold in_alphabet. by rewrite Hc, orb_true_r.
  - apply (all_chars_impl is_numchar); [| done].
    intros c Hc. unfold in_alphabet. by rewrite Hc, !orb_true_r.
Qed.

Lemma accepted_alphabet s op num :
  accepted s op num → all_chars in_alphabet s = true.
Proof.
  intros [H | (s0 & -> & H)]; [by eapply pattern_alphabet |].
  rewrite all_chars_app. erewrite pattern_alphabet by done. done.
Qed.



Lemma evaluate_accepted (v : pyval) (s op num : string) :
  accepted s op num →
  evaluate_sql_condition v (PStr s)
  = try_except
      (let* condition_value := py_float num in
       if String.eqb op "<=" then py_le v condition_value
       else if String.eqb op ">=" then py_ge v condition_value
       else if String.eqb op "<" then py_lt v condition_value
       else if String.eqb op ">" then py_gt v condition_value
       else if String.eqb op "=" then py_eq v condition_value
       else if String.eqb op "!=" then py_ne v condition_value
       else ret true) true.
Proof.
  intros Hacc. rewrite evaluate_nonempty by (by eapply accepted_nonempty).
  unfold evaluate_body. by apply re_match_normalise in Hacc as ->.
Qed.





Lemma count_chars_app p (a b : string) :
  count_chars p (a +:+ b) = count_chars p a + count_chars p b.
Proof. induction a as [|c a IH]; simpl; [done | rewrite IH; lia]. Qed.

Lemma digit_not_dot c : is_digit c = true → is_dot c = false.
Proof.
  revert c. intros c; destruct c as [[] [] [] [] [] [] [] []];
    vm_compute; congruence.
Qed.

Lemma numchar_dot c : is_numchar c = true → is_digit c = false → is_dot c = true.
Proof. unfold is_numchar, is_dot. intros H Hd. by rewrite Hd in H. Qed.

Lemma digits_count (a : string) :
  all_chars is_digit a = true →
  count_chars is_dot a = 0 ∧ count_chars is_digit a = String.length a.
Proof.
  induction a as [|c a IH]; [done |].
  cbn [all_chars count_chars String.length].
  intros [Hc Ha]%andb_true_iff. destruct (IH Ha) as [-> ->].
  by rewrite Hc, (digit_not_dot c Hc).
Qed.

(** [float] rejects a text over digits and dots that has no digit or
    more than one dot. *)
Lemma py_float_malformed (num : string) :
  all_chars is_numchar num = true →
  2 ≤ count_chars is_dot num ∨ count_chars is_digit num = 0 →
  py_float num = raise ValueError.
Proof.
  intros Hnum Hbad. unfold py_float.
  destruct (span is_digit num) as [a b] eqn:Hspan.
  apply span_spec in Hspan as (-> & Ha & Hb).
  rewrite all_chars_app in Hnum. apply andb_true_iff in Hnum as [_ Hnb].
  rewrite !count_chars_app in Hbad.
  destruct (digits_count a Ha) as [Ha0 Hal]. rewrite Ha0, Hal in Hbad.
  destruct b as [|c t]; simpl in *.
  - destruct a; simpl in *; [done | lia].
  - apply andb_true_iff in Hnb as [Hc Ht].
    pose proof (numchar_dot c Hc Hb) as Hdot. rewrite Hb, Hdot in Hbad.
    unfold is_dot in Hdot. rewrite Hdot. simpl.
    destruct (all_chars is_digit t) eqn:Hdt; [| done].
    destruct (digits_count t Hdt) as [Ht0 Htl]. rewrite Ht0, Htl in Hbad.
    destruct a, t; simpl in *; try done; lia.
Qed.







End ConditionMore.

(* ================================================================== *)
(** * ListingFilterEngine: further properties *)

Section FilterMore.
Import Py Filter.

Lemma filter_meets_Forall (c : Criteria.t) (L : list Listing.t) :
  Forall (meets c) (filter (meets c) L).
Proof. apply Forall_forall. by intros h [? _]%list_elem_of_filter. Qed.

Lemma filter_Forall {A} (P : A → Prop) `{!∀ x, Decision (P x)} (l : list A) :
  Forall P l → filter P l = l.
Proof.
  induction 1 as [|x l Hx _ IH]; [done |]. by rewrite filter_cons_True, IH.
Qed.

Lemma filter_sublist_impl {A} (P Q : A → Prop)
    `{!∀ x, Decision (P x), !∀ x, Decision (Q x)} (l : list A) :
  (∀ x, P x → Q x) → filter P l `sublist_of` filter Q l.
Proof.
  intros HPQ. induction l as [|x l IH]; [done |].
  rewrite !filter_cons. destruct (decide (P x)) as [HP | HP].
  - rewrite decide_True by auto. by apply sublist_skip.
  - destruct (decide (Q x)); [by apply sublist_cons | done].
Qed.






(** X12: The label stages read their lists as sets: two exclusion lists,
    or two inclusion lists, with the same elements give the same
    result, whatever their order and repetitions. *)
Theorem label_lists_are_sets (c1 c2 : Criteria.t) (L : list Listing.t)
    (l1 l2 : list string) :
  (∀ x, x ∈ l1 ↔ x ∈ l2) →
  (Criteria.labels_to_exclude c1 = Some l1 →
   Criteria.labels_to_exclude c2 = Some l2 →
   stage_exclude c1 L = stage_exclude c2 L)
  ∧ (Criteria.labels_to_include c1 = Some l1 →
     Criteria.labels_to_include c2 = Some l2 →
     stage_include c1 L = stage_include c2 L).
Proof.
  intros Hsame. split; intros H1 H2.
  - rewrite !stage_exclude_spec. apply list_filter_iff. intros h.
    unfold exclude_ok, avoids. rewrite H1, H2, !Forall_forall.
    by setoid_rewrite Hsame.
  - rewrite !stage_include_spec. apply list_filter_iff. intros h.
    unfold include_ok, carries. rewrite H1, H2, !Forall_forall.
    by setoid_rewrite Hsame.
Qed.

Lemma label_lists_are_sets_witness :
  stage_include Sample.include_hospital_mrt [Sample.house_hospital_mrt]
  = stage_include MoreSamples.include_mrt_hospital_mrt
      [Sample.house_hospital_mrt].
Proof.
  refine (proj2 (label_lists_are_sets Sample.include_hospital_mrt
                   MoreSamples.include_mrt_hospital_mrt
                   _ ["hospital"; "MRT station"]
                   ["MRT station"; "hospital"; "MRT station"] _)
            eq_refl eq_refl).
  intros x. rewrite !elem_of_cons. rewrite !elem_of_nil. tauto.
Defined.

(** X13: A listing without a [label] key passes every exclusion and fails
    every non-empty inclusion. *)
Theorem listing_without_labels (h : Listing.t) (c : Criteria.t)
    (L : list Listing.t) :
  Listing.label h = None →
  (h ∈ L → h ∈ stage_exclude c L)
  ∧ (∀ include, Criteria.labels_to_include c = Some include →
                include ≠ [] → h ∉ stage_include c L).
Proof.
  intros Hh. split.
  - intros Hin. rewrite stage_exclude_spec. apply list_elem_of_filter.
    split; [| done]. unfold exclude_ok.
    destruct (Criteria.labels_to_exclude c) as [exclude|]; [| done].
    unfold avoids, label_list. rewrite Hh. apply Forall_forall.
    intros x _. apply not_elem_of_nil.
  - intros include Hc Hne. rewrite stage_include_spec.
    intros [Hok _]%list_elem_of_filter. unfold include_ok in Hok.
    rewrite Hc in Hok. unfold carries, label_list in Hok. rewrite Hh in Hok.
    destruct include as [|x xs]; [done |].
    apply Forall_cons in Hok as [Hx _]. by apply not_elem_of_nil in Hx.
Qed.

Lemma listing_without_labels_witness :
  MoreSamples.house_unlabelled
  ∈ stage_exclude Sample.exclude_temple [MoreSamples.house_unlabelled]
  ∧ MoreSamples.house_unlabelled
    ∉ stage_include Sample.include_hospital_mrt [MoreSamples.house_unlabelled].
Proof.
  destruct (listing_without_labels MoreSamples.house_unlabelled
              Sample.exclude_temple [MoreSamples.house_unlabelled] eq_refl)
    as [Hex _].
  destruct (listing_without_labels MoreSamples.house_unlabelled
              Sample.include_hospital_mrt [MoreSamples.house_unlabelled]
              eq_refl)
    as [_ Hin].
  split.
  - apply Hex. left.
  - apply (Hin ["hospital"; "MRT station"]); [reflexivity | discriminate].
Defined.







End FilterMore.

(* ================================================================== *)
(** * GeoDistance: further properties *)

Section GeoMore.
Import Geo.
Local Open Scope R_scope.

Lemma sin_sqr_le_1 (x : R) : 0 <= sin x ^ 2 <= 1.
Proof. pose proof (sin2_cos2 x) as H. unfold Rsqr in H. nra. Qed.

(** For latitudes between the poles the product of the two cosines is
    at most the squared cosine of half the latitude difference. *)
Lemma cos_product_bound (p1 p2 : R) :
  cos p1 * cos p2 <= 1 - sin ((p2 - p1) / 2) ^ 2.
Proof.
  pose proof (cos_minus p2 p1) as Hm. pose proof (cos_plus p2 p1) as Hp.
  pose proof (COS_bound (p2 + p1)) as [_ Hb].
  pose proof (cos_2a_sin ((p2 - p1) / 2)) as H2.
  replace (2 * ((p2 - p1) / 2)) with (p2 - p1) in H2 by lra.
  nra.
Qed.

Lemma hav_a_range lat1 lon1 lat2 lon2 :
  -90 <= lat1 <= 90 → -90 <= lat2 <= 90 →
  0 <= hav_a lat1 lon1 lat2 lon2 <= 1.
Proof.
  intros H1 H2. unfold hav_a. pose proof PI_RGT_0 as Hpi.
  assert (0 <= cos (radians lat1)) as Hc1
    by (apply cos_ge_0; unfold radians; nra).
  assert (0 <= cos (radians lat2)) as Hc2
    by (apply cos_ge_0; unfold radians; nra).
  pose proof (cos_product_bound (radians lat1) (radians lat2)) as Hprod.
  pose proof (sin_sqr_le_1 ((radians lat2 - radians lat1) / 2)) as Hs.
  pose proof (sin_sqr_le_1 ((radians lon2 - radians lon1) / 2)) as Ht.
  assert (0 <= cos (radians lat1) * cos (radians lat2)) as Hc by nra.
  split; nra.
Qed.

Lemma atan2_quadrant (y x : R) : 0 <= y → 0 <= x → 0 <= atan2 y x <= PI / 2.
Proof.
  intros Hy Hx. unfold atan2. pose proof PI_RGT_0 as Hpi.
  destruct (Rlt_dec 0 x) as [Hx' | Hx'].
  - pose proof (atan_bound (y / x)) as [_ Hub].
    assert (0 <= y / x) as Hq.
    { unfold Rdiv. apply Rmult_le_pos; [done |].
      left. by apply Rinv_0_lt_compat. }
    destruct Hq as [Hq | <-]; [| rewrite atan_0; lra].
    apply atan_increasing in Hq. rewrite atan_0 in Hq. lra.
  - destruct (Rlt_dec x 0); [lra |].
    destruct (Rlt_dec 0 y); [lra |].
    destruct (Rlt_dec y 0); lra.
Qed.



(** X16: A point is at distance zero from itself, and two points between
    the poles on different parallels are at a positive distance. *)
Theorem haversine_zero_and_positive :
  (∀ lat lon, haversine lat lon lat lon = 0)
  ∧ (∀ lat1 lon1 lat2 lon2,
       -90 <= lat1 <= 90 → -90 <= lat2 <= 90 → lat1 ≠ lat2 →
       0 < haversine lat1 lon1 lat2 lon2).
Proof.
  split; [apply haversine_refl |].
  intros lat1 lon1 lat2 lon2 H1 H2 Hne.
  destruct (Rtotal_order lat1 lat2) as [Hlt | [Heq | Hgt]]; [| done |].
  - by apply haversine_pos.
  - rewrite haversine_hav_a, hav_a_sym, <- haversine_hav_a.
    by apply haversine_pos.
Qed.

Lemma haversine_zero_and_positive_witness :
  0 < haversine 26 122.5 25 121.5.
Proof. apply (proj2 haversine_zero_and_positive); lra. Defined.

(** X18: The distance depends on the longitudes only through their
    difference, and a full turn of 360 degrees in longitude does not
    change it. *)
Theorem haversine_longitude (lat1 lon1 lat2 lon2 : R) :
  (∀ shift, haversine lat1 (lon1 + shift) lat2 (lon2 + shift)
            = haversine lat1 lon1 lat2 lon2)
  ∧ haversine lat1 (lon1 + 360) lat2 lon2 = haversine lat1 lon1 lat2 lon2
  ∧ haversine lat1 lon1 lat2 (lon2 + 360) = haversine lat1 lon1 lat2 lon2.
Proof.
  assert (∀ x, sin (x + PI) ^ 2 = sin x ^ 2) as Hturn.
  { intros x. rewrite neg_sin. ring. }
  assert (∀ x, sin (x - PI) ^ 2 = sin x ^ 2) as Hback.
  { intros x. rewrite <- (Hturn (x - PI)). f_equal. f_equal. lra. }
  rewrite !haversine_hav_a. split_and!.
  - intros shift. rewrite !haversine_hav_a.
    assert (hav_a lat1 (lon1 + shift) lat2 (lon2 + shift)
            = hav_a lat1 lon1 lat2 lon2) as ->; [| done].
    unfold hav_a, radians.
    by replace ((lon2 + shift) * (PI / 180) - (lon1 + shift) * (PI / 180))
      with (lon2 * (PI / 180) - lon1 * (PI / 180)) by lra.
  - assert (hav_a lat1 (lon1 + 360) lat2 lon2 = hav_a lat1 lon1 lat2 lon2)
      as ->; [| done].
    unfold hav_a, radians.
    replace ((lon2 * (PI / 180) - (lon1 + 360) * (PI / 180)) / 2)
      with ((lon2 * (PI / 180) - lon1 * (PI / 180)) / 2 - PI) by lra.
    by rewrite Hback.
  - assert (hav_a lat1 lon1 lat2 (lon2 + 360) = hav_a lat1 lon1 lat2 lon2)
      as ->; [| done].
    unfold hav_a, radians.
    replace (((lon2 + 360) * (PI / 180) - lon1 * (PI / 180)) / 2)
      with ((lon2 * (PI / 180) - lon1 * (PI / 180)) / 2 + PI) by lra.
    by rewrite Hturn.
Qed.

End GeoMore.

(* ================================================================== *)
(** * AmenityClassifier and AmenityScorer: further properties *)

Section AmenityMore.
Import Py Amenity Measure.

(** The loop collects the categories of the elements, in their order. *)
Lemma foldl_classify_element (acc : list string) (elements : list Element) :
  foldl classify_element acc elements = acc ++ omap category_of elements.
Proof.
  revert acc. induction elements as [|e es IH]; intros acc; simpl.
  - by rewrite app_nil_r.
  - rewrite IH, classify_element_category. unfold category_of.
    destruct (category _); simpl; by rewrite <- ?app_assoc, ?app_nil_r.
Qed.

Lemma Counter_snoc (xs : list string) (x : string) :
  Counter (xs ++ [x]) = <[x := (get0 (Counter xs) x + 1)%Z]> (Counter xs).
Proof. unfold Counter. by rewrite foldl_app. Qed.

Lemma occurrences_snoc (k x : string) (xs : list string) :
  occurrences k (xs ++ [x])
  = occurrences k xs + (if decide (x = k) then 1 else 0).
Proof.
  unfold occurrences. rewrite filter_app, length_app, filter_cons, filter_nil.
  by destruct (decide (x = k)).
Qed.

Lemma occurrences_zero (k : string) (xs : list string) :
  occurrences k xs = 0 ↔ k ∉ xs.
Proof.
  unfold occurrences. induction xs as [|x xs IH].
  - split; [intros _; apply not_elem_of_nil | done].
  - rewrite filter_cons, not_elem_of_cons.
    destruct (decide (x = k)) as [-> | Hne]; simpl.
    + split; [done | by intros [? _]].
    + rewrite IH. split; [by intros ?; split | by intros [_ ?]].
Qed.

(** A counter holds, for each label of the list, the number of its
    occurrences, and nothing for the other labels. *)
Lemma Counter_lookup (xs : list string) :
  ∀ k, Counter xs !! k
       = if decide (k ∈ xs) then Some (Z.of_nat (occurrences k xs)) else None.
Proof.
  induction xs as [|x xs IH] using rev_ind; intros k.
  - rewrite decide_False by apply not_elem_of_nil. done.
  - rewrite Counter_snoc, occurrences_snoc.
    assert (get0 (Counter xs) x = Z.of_nat (occurrences x xs)) as ->.
    { unfold get0. rewrite IH. destruct (decide (x ∈ xs)) as [Hin | Hin];
        [done |]. apply occurrences_zero in Hin as ->. done. }
    destruct (decide (x = k)) as [-> | Hne].
    + rewrite lookup_insert_eq.
      rewrite decide_True by (apply elem_of_app; right; left).
      f_equal. lia.
    + rewrite lookup_insert_ne by done. rewrite IH.
      destruct (decide (k ∈ xs)) as [Hin | Hin].
      * rewrite decide_True by (apply elem_of_app; by left). f_equal. lia.
      * rewrite decide_False; [done |].
        intros [? | ?%list_elem_of_singleton]%elem_of_app; done.
Qed.

Lemma get0_Counter (xs : list string) (k : string) :
  get0 (Counter xs) k = Z.of_nat (occurrences k xs).
Proof.
  unfold get0. rewrite Counter_lookup.
  destruct (decide (k ∈ xs)) as [Hin | Hin]; [done |].
  by apply occurrences_zero in Hin as ->.
Qed.

Lemma occurrences_omap (k : string) (elements : list Element) :
  occurrences k (omap category_of elements) = elements_in k elements.
Proof.
  unfold occurrences, elements_in.
  induction elements as [|e es IH]; [done |].
  change (omap category_of (e :: es))
    with (match category_of e with
          | Some y => y :: omap category_of es
          | None => omap category_of es
          end).
  rewrite (filter_cons _ e es).
  destruct (category_of e) as [c|] eqn:Hc.
  - rewrite filter_cons.
    destruct (decide (c = k)) as [-> | Hne].
    + rewrite decide_True by done. cbn [length]. by rewrite IH.
    + rewrite decide_False by congruence. done.
  - rewrite decide_False by done. done.
Qed.

Lemma elements_in_present (k : string) (elements : list Element) :
  0 < elements_in k elements ↔ present k elements.
Proof.
  unfold elements_in, present. rewrite Exists_exists. split.
  - intros Hlen.
    destruct (filter _ elements) as [|e l] eqn:E; [simpl in Hlen; lia |].
    assert (e ∈ filter (fun e => category_of e = Some k) elements) as He
      by (rewrite E; left).
    apply list_elem_of_filter in He as [? ?]. by exists e.
  - intros (e & Hin & Hc).
    assert (e ∈ filter (fun e => category_of e = Some k) elements) as He
      by (by apply list_elem_of_filter).
    destruct (filter _ elements); [by apply elem_of_nil in He | simpl; lia].
Qed.

(** X19: For every category, the count returned for an answer is the number
    of its elements that fall in the category; a category in which
    none falls has no entry, so every stored count is positive. *)
Theorem counts_of_answer (elements : list Element) (k : string) :
  get0 (amenity_counts elements) k = Z.of_nat (elements_in k elements)
  ∧ (amenity_counts elements !! k = None ↔ ¬ present k elements)
  ∧ (∀ n, amenity_counts elements !! k = Some n → (0 < n)%Z).
Proof.
  unfold amenity_counts. rewrite foldl_classify_element. simpl.
  split_and!.
  - by rewrite get0_Counter, occurrences_omap.
  - rewrite Counter_lookup, <- elements_in_present, <- occurrences_omap.
    destruct (decide (k ∈ omap category_of elements)) as [Hin | Hin].
    + split; [done |]. intros H. apply occurrences_zero in Hin; [done | lia].
    + apply occurrences_zero in Hin as ->. split; [lia | done].
  - intros n. rewrite Counter_lookup.
    destruct (decide (k ∈ omap category_of elements)) as [Hin | Hin];
      [| done].
    intros [= <-].
    destruct (occurrences k (omap category_of elements)) eqn:E; [| lia].
    by apply occurrences_zero in E.
Qed.

(** X21: The score of an answer counts the kinds of station, among metro,
    national rail and high-speed rail, that have at least one element
    in the answer. *)
Theorem score_of_answer (elements : list Element) :
  check_living_function_updated (amenity_counts elements)
  = PStr ("綜合評分: "
          +:+ pretty (indicator (present "mrt_station" elements)
                      + indicator (present "tra_station" elements)
                      + indicator (present "hsr_station" elements))%Z).
Proof.
  unfold check_living_function_updated. rewrite transit_score_rule_sum.
  do 3 f_equal. unfold rule_sum.
  assert (∀ k, point (get0 (amenity_counts elements) k)
               = indicator (present k elements)) as Hk.
  { intros k. unfold point, indicator.
    unfold amenity_counts. rewrite foldl_classify_element. simpl.
    rewrite get0_Counter, occurrences_omap.
    destruct (decide (present k elements)) as [Hp | Hp].
    - apply elements_in_present in Hp. rewrite decide_True by lia. done.
    - rewrite <- elements_in_present in Hp. rewrite decide_False by lia. done. }
  by rewrite !Hk.
Qed.

Lemma counts_of_answer_witness :
  get0 (amenity_counts [MoreSamples.station_taipei; MoreSamples.bank;
                        MoreSamples.untagged; MoreSamples.station_taipei])
       "mrt_station" = 2%Z
  ∧ (0 < 2)%Z.
Proof.
  destruct (counts_of_answer
              [MoreSamples.station_taipei; MoreSamples.bank;
               MoreSamples.untagged; MoreSamples.station_taipei]
              "mrt_station") as (Hget & _ & Hpos).
  split.
  - rewrite Hget. reflexivity.
  - apply Hpos. reflexivity.
Defined.

Lemma total_insert (m : gmap string Z) (x : string) (n : Z) :
  total (<[x := n]> m) = (total m - get0 m x + n)%Z.
Proof.
  unfold total, get0. destruct (m !! x) as [c|] eqn:Hx; simpl.
  - rewrite <- (insert_delete_eq m).
    rewrite map_fold_insert_L; [| intros; lia | apply lookup_delete_eq].
    rewrite (map_fold_delete_L _ _ x c m); [lia | intros; lia | done].
  - rewrite map_fold_insert_L; [lia | intros; lia | done].
Qed.

Lemma Counter_total (xs : list string) :
  total (Counter xs) = Z.of_nat (length xs).
Proof.
  induction xs as [|x xs IH] using rev_ind; [done |].
  rewrite Counter_snoc, total_insert, IH, length_app. simpl. lia.
Qed.

(** X20: The counts of an answer add up to the number of its elements that
    have a category, which is at most the number of elements: no
    element is counted twice. *)
Theorem counts_add_up (elements : list Element) :
  total (amenity_counts elements)
  = Z.of_nat (length (omap category_of elements))
  ∧ (total (amenity_counts elements) ≤ Z.of_nat (length elements))%Z.
Proof.
  unfold amenity_counts. rewrite foldl_classify_element. simpl.
  rewrite Counter_total. split; [done |].
  apply inj_le. induction elements as [|e es IH]; [done |].
  change (omap category_of (e :: es))
    with (match category_of e with
          | Some y => y :: omap category_of es
          | None => omap category_of es
          end).
  destruct (category_of e); simpl; lia.
Qed.

Lemma prefix_spec (n h : string) :
  String.prefix n h = true ↔ ∃ post, h = n +:+ post.
Proof.
  revert h. induction n as [|c n IH]; intros h.
  - split; [intros _; by exists h | by destruct h].
  - destruct h as [|d h]; simpl.
    + split; [done | by intros (? & ?)].
    + destruct (ascii_dec c d) as [-> | Hne].
      * rewrite IH. split; intros (post & H); exists post; congruence.
      * split; [done | intros (post & [= ? ?]); done].
Qed.

(** [needle in hay] holds exactly when [hay] has [needle] somewhere
    inside. *)
Lemma contains_spec (n h : string) :
  contains n h = true ↔ ∃ pre post, h = pre +:+ n +:+ post.
Proof.
  induction h as [|d h IH].
  - cbn [contains]. rewrite orb_false_r, prefix_spec. split.
    + intros (post & H). by exists "", post.
    + intros (pre & post & H). destruct pre; [by exists post | done].
  - cbn [contains]. rewrite orb_true_iff, prefix_spec, IH. split.
    + intros [(post & H) | (pre & post & H)].
      * by exists "", post.
      * exists (String d pre), post. simpl. by rewrite H.
    + intros (pre & post & H). destruct pre as [|e pre].
      * left. by exists post.
      * right. simpl in H. injection H as -> ->. by exists pre, post.
Qed.

(** X22: An element whose network or operator name has the metro marker
    anywhere inside is a metro station, whatever its other tags
    say. *)
Theorem metro_marker_anywhere (tags : gmap string string)
    (pre post : string) :
  tags !! "network" = Some (pre +:+ "捷運" +:+ post)
  ∨ tags !! "operator" = Some (pre +:+ "捷運" +:+ post) →
  category tags = Some "mrt_station".
Proof.
  intros H. unfold category, has_marker. cbn [existsb].
  assert (contains "捷運" (pre +:+ "捷運" +:+ post) = true) as Hc
    by (apply contains_spec; by exists pre, post).
  destruct H as [-> | ->]; cbv [default from_option id Datatypes.id];
    rewrite Hc; by rewrite ?orb_true_r.
Qed.

(** A cafe inside a metro station of Kaohsiung. *)
Lemma metro_marker_anywhere_witness :
  category (<["network" := "高雄捷運紅線"]> (<["amenity" := "cafe"]> ∅))
  = Some "mrt_station".
Proof.
  apply (metro_marker_anywhere _ "高雄" "紅線"). left. reflexivity.
Defined.

End AmenityMore.

(* ================================================================== *)
(** * The cleaning step of [get_ai_criteria]: properties *)

Section TranslatorFacts.
Import Condition Translator.

Lemma is_open_spec c : is_open c = true ↔ c = "{"%char.
Proof.
  split; [| by intros ->].
  destruct c as [[] [] [] [] [] [] [] []]; vm_compute; congruence.
Qed.

Lemma is_close_spec c : is_close c = true ↔ c = "}"%char.
Proof.
  split; [| by intros ->].
  destruct c as [[] [] [] [] [] [] [] []]; vm_compute; congruence.
Qed.

Lemma from_first_open_app (pre rest : string) :
  no_open pre = true →
  from_first_open (pre +:+ "{" +:+ rest) = Some ("{" +:+ rest).
Proof.
  unfold no_open. induction pre as [|c pre IH]; [done |].
  cbn [all_chars]. intros [Hc Hpre]%andb_true_iff.
  apply negb_true_iff in Hc. simpl. rewrite Hc. by apply IH.
Qed.

Lemma from_first_open_some (s r : string) :
  from_first_open s = Some r →
  ∃ pre rest, s = pre +:+ "{" +:+ rest ∧ r = "{" +:+ rest
              ∧ no_open pre = true.
Proof.
  revert r. induction s as [|c s IH]; intros r; [done |]. simpl.
  destruct (is_open c) eqn:Hc.
  - intros [= <-]. apply is_open_spec in Hc as ->. by exists "", s.
  - intros (pre & rest & -> & -> & Hpre)%IH.
    exists (String c pre), rest. split_and!; try done.
    unfold no_open. simpl. by rewrite Hc.
Qed.

Lemma upto_last_close_app (mid post : string) :
  no_close post = true →
  upto_last_close (mid +:+ "}" +:+ post) = Some (mid +:+ "}").
Proof.
  intros Hpost.
  assert (upto_last_close post = None) as Hnone.
  { revert Hpost. unfold no_close. induction post as [|c post IH]; [done |].
    cbn [all_chars]. intros [Hc Hp]%andb_true_iff.
    apply negb_true_iff in Hc. simpl. by rewrite (IH Hp), Hc. }
  induction mid as [|c mid IH].
  - change ("" +:+ "}" +:+ post) with (String "}" post).
    cbn [upto_last_close]. by rewrite Hnone.
  - change (String c mid +:+ "}" +:+ post)
      with (String c (mid +:+ "}" +:+ post)).
    cbn [upto_last_close]. by rewrite IH.
Qed.

Lemma upto_last_close_some (s p : string) :
  upto_last_close s = Some p →
  ∃ mid post, s = mid +:+ "}" +:+ post ∧ p = mid +:+ "}"
              ∧ no_close post = true.
Proof.
  revert p. induction s as [|c s IH]; intros p; [done |]. simpl.
  destruct (upto_last_close s) as [q|] eqn:Hs.
  - intros [= <-]. destruct (IH q eq_refl) as (mid & post & -> & -> & Hpost).
    by exists (String c mid), post.
  - destruct (is_close c) eqn:Hc; [| done]. intros [= <-].
    apply is_close_spec in Hc as ->. exists "", s. split_and!; try done.
    clear IH. unfold no_close. induction s as [|d s IHs]; [done |].
    simpl in Hs. destruct (upto_last_close s); [done |].
    destruct (is_close d) eqn:Hd; [done |].
    cbn [all_chars]. rewrite Hd. by apply IHs.
Qed.

Lemma upto_last_close_inside (u x : string) :
  upto_last_close (u +:+ "}" +:+ x) ≠ None.
Proof.
  induction u as [|c u IH].
  - change ("" +:+ "}" +:+ x) with (String "}" x). cbn [upto_last_close].
    by destruct (upto_last_close x).
  - change (String c u +:+ "}" +:+ x) with (String c (u +:+ "}" +:+ x)).
    cbn [upto_last_close].
    by destruct (upto_last_close (u +:+ "}" +:+ x)).
Qed.

Lemma from_first_open_keeps_suffix (a x r : string) :
  from_first_open (a +:+ "{" +:+ x) = Some r →
  ∃ u, r = "{" +:+ u +:+ x.
Proof.
  induction a as [|c a IH]; simpl.
  - intros [= <-]. by exists "".
  - destruct (is_open c) eqn:Hc; [| done].
    intros [= <-]. apply is_open_spec in Hc as ->.
    exists (a +:+ "{"). by rewrite !app_assoc_str.
Qed.

Lemma json_match_decompose (text j : string) :
  json_match text = Some j ↔
  ∃ pre mid post,
    text = pre +:+ "{" +:+ mid +:+ "}" +:+ post
    ∧ no_open pre = true ∧ no_close post = true
    ∧ j = "{" +:+ mid +:+ "}".
Proof.
  unfold json_match. split.
  - destruct (from_first_open text) as [r|] eqn:Hr; [| done].
    apply from_first_open_some in Hr as (pre & rest & -> & -> & Hpre).
    simpl. destruct (upto_last_close rest) as [p|] eqn:Hp; [| done].
    apply upto_last_close_some in Hp as (mid & post & -> & -> & Hpost).
    intros [= <-]. by exists pre, mid, post.
  - intros (pre & mid & post & -> & Hpre & Hpost & ->).
    rewrite from_first_open_app by done.
    change ("{" +:+ mid +:+ "}" +:+ post)
      with (String "{" (mid +:+ "}" +:+ post)).
    cbv beta iota. by rewrite upto_last_close_app.
Qed.

(** X23: The text handed to the JSON parser runs from the first opening
    brace of the answer to its last closing brace: whatever precedes
    and follows (prose, code fences) is dropped. *)
Theorem json_match_spec (text j : string) :
  json_match text = Some j ↔
  ∃ pre mid post,
    text = pre +:+ "{" +:+ mid +:+ "}" +:+ post
    ∧ no_open pre = true ∧ no_close post = true
    ∧ j = "{" +:+ mid +:+ "}".
Proof. apply json_match_decompose. Qed.

(** An object with a nested object, between two pieces of prose. *)
Lemma json_match_spec_witness :
  json_match "Sure! {a: {b: 1}} done" = Some "{a: {b: 1}}".
Proof.
  apply json_match_spec. exists "Sure! ", "a: {b: 1}", " done".
  repeat split; reflexivity.
Defined.

(** X24: Nothing is found exactly when the answer has no opening brace
    followed, anywhere later, by a closing brace; the function then
    returns the empty criteria. *)
Theorem json_match_none (text : string) :
  json_match text = None ↔
  ¬ ∃ a b c, text = a +:+ "{" +:+ b +:+ "}" +:+ c.
Proof.
  split.
  - intros Hnone (a & b & c & ->). unfold json_match in Hnone.
    destruct (from_first_open (a +:+ "{" +:+ b +:+ "}" +:+ c)) as [r|] eqn:Hr.
    + apply from_first_open_keeps_suffix in Hr as (u & ->).
      change ("{" +:+ u +:+ b +:+ "}" +:+ c)
        with (String "{" (u +:+ b +:+ "}" +:+ c)) in Hnone.
      cbv beta iota in Hnone.
      rewrite <- (app_assoc_str u b) in Hnone.
      by destruct (upto_last_close ((u +:+ b) +:+ "}" +:+ c)) eqn:E;
        [| apply upto_last_close_inside in E].
    + clear Hnone. induction a as [|d a IH]; simpl in Hr; [done |].
      destruct (is_open d); [done | by apply IH].
  - intros H. destruct (json_match text) as [j|] eqn:E; [| done].
    apply json_match_decompose in E as (pre & mid & post & -> & _).
    destruct H. by exists pre, mid, post.
Qed.

(** A closing brace before the only opening brace does not count. *)
Lemma json_match_none_witness : json_match "} no object {" = None.
Proof.
  apply json_match_none. intros (a & b & c & H).
  assert (from_first_open "} no object {" = Some "{") as Hf by reflexivity.
  rewrite H in Hf. apply from_first_open_keeps_suffix in Hf as (u & Hu).
  apply (f_equal String.length) in Hu.
  change ("{" +:+ u +:+ b +:+ "}" +:+ c)
    with (String "{" (u +:+ b +:+ "}" +:+ c)) in Hu.
  cbn [String.length] in Hu.
  destruct u; [destruct b |]; discriminate.
Defined.

(** X25: The text found is itself found whole: cleaning it again changes
    nothing. *)
Theorem json_match_idempotent (text j : string) :
  json_match text = Some j → json_match j = Some j.
Proof.
  intros (pre & mid & post & _ & _ & _ & ->)%json_match_decompose.
  apply json_match_decompose. exists "", mid, "".
  by rewrite app_empty_r.
Qed.

Lemma json_match_idempotent_witness :
  json_match "{a: {b: 1}}" = Some "{a: {b: 1}}".
Proof.
  apply (json_match_idempotent "Sure! {a: {b: 1}} done"). reflexivity.
Defined.

End TranslatorFacts.
